(** * KDD20 hands-on tutorial: loading graph data and training GraphSAGE

    A shallow embedding of the two notebooks of [3-basics]:

    - [1_load_data]: read two CSV tables, build a DGL graph from the
      [Src]/[Dst] columns, attach and remove node and edge features;
    - the semi-supervised community detection notebook: a two-layer
      GraphSAGE network trained for 100 epochs on Zachary's karate club.

    The notebooks are linear scripts over pandas, DGL and PyTorch.  The
    calls they make into these libraries are modelled by what the notebooks
    rely on (shapes, keys, indices, exceptions); the numeric kernels
    (floating-point arithmetic, the SAGEConv layer, autograd, Adam) are
    parameters of the development, so every statement below holds for any
    implementation of them. *)

From Stdlib Require Import ZArith QArith String List.
From stdpp Require Import gmap strings list fin_maps.

Local Open Scope Z_scope.

(** ** Python exceptions and fallible computations *)

Inductive exn : Type :=
| FileNotFoundError (path : string)
| ParserError
| KeyError (key : string)
| NameError (name : string)
| TypeError
| IndexError
| ValueError
| RuntimeError
| ZeroDivisionError
| DGLError
| NetworkXError.

(** A call either returns a value or raises; nothing in the notebooks
    catches an exception, so [Raise] is only ever propagated. *)
Inductive result (A : Type) : Type :=
| Ok (a : A)
| Raise (e : exn).
Arguments Ok {A} a.
Arguments Raise {A} e.

#[global] Instance result_ret : MRet result := @Ok.
#[global] Instance result_bind : MBind result :=
  λ A B f m, match m with Ok a => f a | Raise e => Raise e end.
#[global] Instance result_fmap : FMap result :=
  λ A B f m, match m with Ok a => Ok (f a) | Raise e => Raise e end.

Definition is_ok {A} (m : result A) : bool :=
  match m with Ok _ => true | Raise _ => false end.

(** Fallible traversal of a list, left to right (a Python comprehension
    whose body may raise). *)
Fixpoint mapM {A B} (f : A → result B) (l : list A) : result (list B) :=
  match l with
  | [] => Ok []
  | a :: l' => b ← f a; bs ← mapM f l'; Ok (b :: bs)
  end.

(** ** Floating-point kernels

    The scalar type of float tensors and the library kernels that act on
    it.  Nothing is assumed about them. *)
Class FloatOps (F : Type) : Type := {
  of_long : Z → F;                       (* [.float()] on an integer *)
  fdiv : F → F → F;                      (* [/] *)
  frelu : F → F;                         (* [F.relu], one entry *)
  fgtb : F → F → bool;                   (* [>] as used by [torch.argmax] *)
  log_softmax_row : list F → list F;     (* [F.log_softmax] along one row *)
  nll_loss : list (list F) → list Z → F  (* [F.nll_loss]'s mean, targets in bounds *)
}.

(** ** Tables, tensors and graphs *)

Section Data.
Context {F : Type}.

(** A column of a pandas [DataFrame], with the dtype [read_csv] inferred. *)
Inductive column : Type :=
| IntCol (xs : list Z)
| FloatCol (xs : list F)
| StrCol (xs : list string).

Definition column_length (c : column) : nat :=
  match c with
  | IntCol xs => length xs
  | FloatCol xs => length xs
  | StrCol xs => length xs
  end.

(** The tensors the notebooks build: int64 and float, one or two
    dimensional.  The first dimension is the list's length. *)
Inductive tensor : Type :=
| LongVec (v : list Z)
| LongMat (m : list (list Z))
| FloatVec (v : list F)
| FloatMat (m : list (list F)).

Definition rows (t : tensor) : nat :=
  match t with
  | LongVec v => length v
  | LongMat m => length m
  | FloatVec v => length v
  | FloatMat m => length m
  end.

Inductive dtype : Type := Int64 | Float.

(** [Scheme(shape=..., dtype=...)] as printed in a graph summary: the
    shape of one row of the feature. *)
Definition scheme (t : tensor) : list nat * dtype :=
  match t with
  | LongVec _ => ([], Int64)
  | LongMat m => ([length (default [] (head m))], Int64)
  | FloatVec _ => ([], Float)
  | FloatMat m => ([length (default [] (head m))], Float)
  end.

(** A homogeneous DGL graph: nodes are [0 .. num_nodes - 1], edges are the
    pairs [(edge_src[i], edge_dst[i])], and two feature dictionaries. *)
Record DGLGraph : Type := {
  num_nodes : nat;
  edge_src : list Z;
  edge_dst : list Z;
  ndata : gmap string tensor;
  edata : gmap string tensor
}.

Definition number_of_nodes (g : DGLGraph) : nat := num_nodes g.
Definition number_of_edges (g : DGLGraph) : nat := length (edge_src g).

(** [g.nodes()] and [g.edges()]. *)
Definition nodes (g : DGLGraph) : list Z := Z.of_nat <$> seq 0 (num_nodes g).
Definition edges (g : DGLGraph) : list (Z * Z) := zip (edge_src g) (edge_dst g).

(** Two graphs with the same nodes and the same edges. *)
Definition same_structure (g g' : DGLGraph) : Prop :=
  nodes g' = nodes g ∧ edges g' = edges g
  ∧ number_of_nodes g' = number_of_nodes g
  ∧ number_of_edges g' = number_of_edges g.

(** What [print(g)] shows. *)
Record summary : Type := {
  sum_num_nodes : nat;
  sum_num_edges : nat;
  ndata_schemes : gmap string (list nat * dtype);
  edata_schemes : gmap string (list nat * dtype)
}.

Definition summarize (g : DGLGraph) : summary :=
  {| sum_num_nodes := number_of_nodes g;
     sum_num_edges := number_of_edges g;
     ndata_schemes := scheme <$> ndata g;
     edata_schemes := scheme <$> edata g |}.

End Data.
Arguments column : clear implicits.
Arguments tensor : clear implicits.
Arguments DGLGraph : clear implicits.

(** ** Library calls of the first notebook *)

Section LoadData.
Context {F : Type} `{!FloatOps F}.

(** A table is a dictionary from column names to columns. *)
Abbreviation DataFrame := (gmap string (column F)).

(** [df[name]]: pandas raises [KeyError] for a column that is not there. *)
Definition getcol (df : DataFrame) (name : string) : result (column F) :=
  match df !! name with
  | Some c => Ok c
  | None => Raise (KeyError name)
  end.

(** [torch.tensor(col.to_numpy())]: numeric columns become one-dimensional
    tensors; an object (string) array is rejected with [TypeError]. *)
Definition torch_tensor (c : column F) : result (tensor F) :=
  match c with
  | IntCol xs => Ok (LongVec xs)
  | FloatCol xs => Ok (FloatVec xs)
  | StrCol _ => Raise TypeError
  end.

(** [t.float()]; the change of precision of a float tensor is not tracked. *)
Definition tensor_float (t : tensor F) : tensor F :=
  match t with
  | LongVec v => FloatVec (of_long <$> v)
  | LongMat m => FloatMat (map of_long <$> m)
  | FloatVec v => FloatVec v
  | FloatMat m => FloatMat m
  end.

(** [t / k] for a float tensor and a Python integer. *)
Definition tensor_div (t : tensor F) (k : Z) : tensor F :=
  let d x := fdiv x (of_long k) in
  match tensor_float t with
  | FloatVec v => FloatVec (d <$> v)
  | FloatMat m => FloatMat (map d <$> m)
  | t' => t'
  end.

(** [l[i]] for one index: negative indices count from the end, anything
    outside [-len .. len - 1] raises [IndexError]. *)
Definition index_one {A} (l : list A) (i : Z) : result A :=
  let n := Z.of_nat (length l) in
  let j := if i <? 0 then n + i else i in
  if (0 <=? j) && (j <? n) then
    match l !! Z.to_nat j with
    | Some a => Ok a
    | None => Raise IndexError
    end
  else Raise IndexError.

(** [l[idx]] for a list of indices [idx] (advanced indexing). *)
Definition index_rows {A} (l : list A) (idx : list Z) : result (list A) :=
  mapM (index_one l) idx.

Definition tensor_index (t : tensor F) (idx : list Z) : result (tensor F) :=
  match t with
  | LongVec v => LongVec <$> index_rows v idx
  | LongMat m => LongMat <$> index_rows m idx
  | FloatVec v => FloatVec <$> index_rows v idx
  | FloatMat m => FloatMat <$> index_rows m idx
  end.

(** [[c == 'Officer' for c in club]]: a cell that is not a string is never
    equal to ['Officer']. *)
Definition is_officer (c : column F) : list bool :=
  match c with
  | StrCol xs => (λ s, String.eqb s "Officer") <$> xs
  | IntCol xs => (λ _, false) <$> xs
  | FloatCol xs => (λ _, false) <$> xs
  end.

(** [torch.tensor(bools).long()] *)
Definition bools_long (bs : list bool) : list Z :=
  (λ b : bool, if b then 1 else 0) <$> bs.

(** The categorical encoding of the [Club] column, as integer values. *)
Definition club_encoding (c : column F) : list Z := bools_long (is_officer c).

(** [F.one_hot(t)] with the number of classes inferred as [max + 1].  An
    empty tensor and a negative class value raise [RuntimeError]. *)
Definition one_hot_row (num_classes : nat) (c : Z) : list Z :=
  (λ j : nat, if decide (Z.of_nat j = c) then 1 else 0) <$> seq 0 num_classes.

Definition max_list (l : list Z) : Z := foldr Z.max (-1) l.

Definition one_hot (v : list Z) : result (list (list Z)) :=
  match v with
  | [] => Raise RuntimeError
  | _ =>
      if forallb (λ c, 0 <=? c) v
      then Ok (one_hot_row (Z.to_nat (max_list v + 1)) <$> v)
      else Raise RuntimeError
  end.

(** [torch.argmax] along one row: the index of the first maximal entry;
    a row without entries is rejected with [IndexError]. *)
Fixpoint argmax_from {A} (gt : A → A → bool) (best : A) (besti i : nat)
    (row : list A) : nat :=
  match row with
  | [] => besti
  | x :: row' =>
      if gt x best then argmax_from gt x i (S i) row'
      else argmax_from gt best besti (S i) row'
  end.

Definition argmax_row {A} (gt : A → A → bool) (row : list A) : result Z :=
  match row with
  | [] => Raise IndexError
  | x :: row' => Ok (Z.of_nat (argmax_from gt x 0%nat 1%nat row'))
  end.

(** [torch.argmax(t, axis=1)] *)
Definition argmax_axis1 {A} (gt : A → A → bool) (m : list (list A))
    : result (list Z) :=
  mapM (argmax_row gt) m.

(** [a == b] on one-dimensional int64 tensors, with broadcasting of a
    tensor of size one; other size mismatches raise [RuntimeError]. *)
Definition eq_long (a b : list Z) : result (list bool) :=
  if (length a =? length b)%nat then Ok (zip_with Z.eqb a b)
  else match a, b with
       | [x], _ => Ok (Z.eqb x <$> b)
       | _, [y] => Ok ((λ x, Z.eqb x y) <$> a)
       | _, _ => Raise RuntimeError
       end.

(** [t.sum().item()] on a boolean tensor: the number of [True] entries. *)
Definition sum_bool (bs : list bool) : Z :=
  foldr (λ (b : bool) acc, (if b then 1 else 0) + acc) 0 bs.

(** [a / b] on Python integers: true division, [ZeroDivisionError] on a
    zero divisor.  The quotient is kept as an exact fraction. *)
Definition true_div (a : Z) (b : nat) : result Q :=
  match b with
  | O => Raise ZeroDivisionError
  | S _ => Ok (Qmake a (Pos.of_nat b))
  end.

(** The ids DGL accepts are an integer array. *)
Definition as_ids (c : column F) : result (list Z) :=
  match c with
  | IntCol xs => Ok xs
  | _ => Raise DGLError
  end.

(** Modelled from the spec: [dgl.graph((src, dst))] belongs to DGL, an
    external library that is not part of the sources.  The spec has "node
    ids are zero-based contiguous integers, edge endpoints reference valid
    node ids", enforced by the library: the ids are non-negative, both
    arrays have the same length, and the number of nodes is the largest
    id plus one (no node when there is no edge). *)
Definition dgl_graph (src dst : list Z) : result (DGLGraph F) :=
  if negb (length src =? length dst)%nat then Raise DGLError
  else if negb (forallb (λ v, 0 <=? v) (src ++ dst)) then Raise DGLError
  else Ok {| num_nodes := Z.to_nat (max_list (src ++ dst) + 1);
             edge_src := src; edge_dst := dst;
             ndata := ∅; edata := ∅ |}.

(** [g.in_degree(v)] and [g.successors(v)]; DGL rejects a node id that is
    not in the graph. *)
Definition has_node (g : DGLGraph F) (v : Z) : bool :=
  (0 <=? v) && (v <? Z.of_nat (num_nodes g)).

Definition in_degree (g : DGLGraph F) (v : Z) : result Z :=
  if has_node g v
  then Ok (Z.of_nat (length (filter (λ d, d = v) (edge_dst g))))
  else Raise DGLError.

Definition successors (g : DGLGraph F) (v : Z) : result (list Z) :=
  if has_node g v
  then Ok (snd <$> filter (λ e, e.1 = v) (edges g))
  else Raise DGLError.

(** [g.ndata[k] = t]: the feature must have one row per node. *)
Definition set_ndata (k : string) (t : tensor F) (g : DGLGraph F)
    : result (DGLGraph F) :=
  if decide (rows t = number_of_nodes g)
  then Ok {| num_nodes := num_nodes g;
             edge_src := edge_src g; edge_dst := edge_dst g;
             ndata := <[k := t]> (ndata g); edata := edata g |}
  else Raise DGLError.

(** [g.ndata.update(d)]: the dictionary protocol's [update], one
    [__setitem__] per item, in order. *)
Fixpoint ndata_update (items : list (string * tensor F)) (g : DGLGraph F)
    : result (DGLGraph F) :=
  match items with
  | [] => Ok g
  | (k, t) :: items' => g' ← set_ndata k t g; ndata_update items' g'
  end.

(** [del g.ndata[k]]: [KeyError] when there is no such feature. *)
Definition del_ndata (k : string) (g : DGLGraph F) : result (DGLGraph F) :=
  match ndata g !! k with
  | Some _ =>
      Ok {| num_nodes := num_nodes g;
            edge_src := edge_src g; edge_dst := edge_dst g;
            ndata := delete k (ndata g); edata := edata g |}
  | None => Raise (KeyError k)
  end.

(** [g.edata[k] = t]: the feature must have one row per edge. *)
Definition set_edata (k : string) (t : tensor F) (g : DGLGraph F)
    : result (DGLGraph F) :=
  if decide (rows t = number_of_edges g)
  then Ok {| num_nodes := num_nodes g;
             edge_src := edge_src g; edge_dst := edge_dst g;
             ndata := ndata g; edata := <[k := t]> (edata g) |}
  else Raise DGLError.

End LoadData.

(** ** The notebook as a linear script

    A notebook is run top to bottom in one Python namespace.  A statement
    may leave the namespace changed when it raises (an in-place update that
    fails half way), so a statement returns the namespace together with the
    exception, if any.  Output printed or displayed by the cells is kept in
    order. *)

Section Script.
Context {F : Type} `{!FloatOps F}.

Inductive pyobj : Type :=
| VFrame (df : gmap string (column F))
| VArray (c : column F)
| VTensor (t : tensor F)
| VGraph (g : DGLGraph F)
| VInt (n : Z)
| VSummary (s : summary).

Record state : Type := {
  vars : gmap string pyobj;
  out : list pyobj
}.

Definition stmt : Type := state → state * option exn.

Definition initial_state : state := {| vars := ∅; out := [] |}.

(** Sequential execution: the first exception ends the run; there is no
    handler anywhere in the notebooks. *)
Fixpoint run (prog : list stmt) (st : state) : state * option exn :=
  match prog with
  | [] => (st, None)
  | s :: prog' =>
      match s st with
      | (st', None) => run prog' st'
      | (st', Some e) => (st', Some e)
      end
  end.

Definition lookup_var (x : string) (ns : gmap string pyobj) : result pyobj :=
  match ns !! x with
  | Some v => Ok v
  | None => Raise (NameError x)
  end.

Definition get_frame (x : string) (ns : gmap string pyobj)
    : result (gmap string (column F)) :=
  v ← lookup_var x ns;
  match v with VFrame df => Ok df | _ => Raise TypeError end.

Definition get_array (x : string) (ns : gmap string pyobj)
    : result (column F) :=
  v ← lookup_var x ns;
  match v with VArray c => Ok c | _ => Raise TypeError end.

Definition get_tensor (x : string) (ns : gmap string pyobj)
    : result (tensor F) :=
  v ← lookup_var x ns;
  match v with VTensor t => Ok t | _ => Raise TypeError end.

Definition get_graph (x : string) (ns : gmap string pyobj)
    : result (DGLGraph F) :=
  v ← lookup_var x ns;
  match v with VGraph g => Ok g | _ => Raise TypeError end.

(** [x = e] *)
Definition assign (x : string) (e : gmap string pyobj → result pyobj) : stmt :=
  λ st,
    match e (vars st) with
    | Ok v => ({| vars := <[x := v]> (vars st); out := out st |}, None)
    | Raise err => (st, Some err)
    end.

(** [print(e)], or a cell that ends in the expression [e] *)
Definition print (e : gmap string pyobj → result pyobj) : stmt :=
  λ st,
    match e (vars st) with
    | Ok v => ({| vars := vars st; out := out st ++ [v] |}, None)
    | Raise err => (st, Some err)
    end.

(** A method call that updates the graph bound to [x] in place. *)
Definition update_graph (x : string)
    (f : gmap string pyobj → DGLGraph F → result (DGLGraph F)) : stmt :=
  assign x (λ ns, g ← get_graph x ns; VGraph <$> f ns g).

Definition print_graph (x : string) : stmt :=
  print (λ ns, g ← get_graph x ns; Ok (VSummary (summarize g))).

Definition one_hot_tensor (t : tensor F) : result (tensor F) :=
  match t with
  | LongVec v => LongMat <$> one_hot v
  | _ => Raise RuntimeError
  end.

(** [g.ndata.update({'club' : club, 'club_onehot' : club_onehot})]: the
    graph keeps the items set before a failing one. *)
Fixpoint ndata_update_stmt_aux (items : list (string * tensor F))
    (g : DGLGraph F) : DGLGraph F * option exn :=
  match items with
  | [] => (g, None)
  | (k, t) :: items' =>
      match set_ndata k t g with
      | Ok g' => ndata_update_stmt_aux items' g'
      | Raise e => (g, Some e)
      end
  end.

Definition ndata_update_stmt (x : string) (keys : list (string * string)) : stmt :=
  λ st,
    let args :=
      g ← get_graph x (vars st);
      items ← mapM (λ kv : string * string,
                      t ← get_tensor kv.2 (vars st); Ok (kv.1, t)) keys;
      Ok (g, items) in
    match args with
    | Ok (g, items) =>
        let '(g', err) := ndata_update_stmt_aux items g in
        ({| vars := <[x := VGraph g']> (vars st); out := out st |}, err)
    | Raise e => (st, Some e)
    end.

(** The four statements of [1_load_data] that assign or delete a feature. *)
Definition stmt_set_age : stmt :=
  update_graph "g" (λ ns g, t ← get_tensor "age" ns; set_ndata "age" t g).

Definition stmt_update_club : stmt :=
  ndata_update_stmt "g" [("club", "club"); ("club_onehot", "club_onehot")].

Definition stmt_del_age : stmt :=
  update_graph "g" (λ _ g, del_ndata "age" g).

Definition stmt_set_weight : stmt :=
  update_graph "g" (λ ns g, t ← get_tensor "edge_weight" ns; set_edata "weight" t g).



Section Notebook1.
(** [pd.read_csv]: the file system and the CSV parser. *)
Variable read_csv : string → result (gmap string (column F)).

(** The cells of [1_load_data], up to the assignment of the edge weights.
    The shell command and the networkx drawing are left out; the cells on
    [srcdata]/[dstdata] of [g] follow further down, as [cell_src_dst] and
    [cell_print_src_h]; the last cells build graphs of their own from
    literals and do not touch [g]. *)
Definition cell_nodes_data : list stmt :=
  [ assign "nodes_data" (λ _, VFrame <$> read_csv "data/nodes.csv");
    print (lookup_var "nodes_data") ].

Definition cell_edges_data : list stmt :=
  [ assign "edges_data" (λ _, VFrame <$> read_csv "data/edges.csv");
    print (lookup_var "edges_data") ].

Definition cell_graph : list stmt :=
  [ assign "src" (λ ns, df ← get_frame "edges_data" ns; VArray <$> getcol df "Src");
    assign "dst" (λ ns, df ← get_frame "edges_data" ns; VArray <$> getcol df "Dst");
    assign "g" (λ ns,
      s ← get_array "src" ns; d ← get_array "dst" ns;
      s' ← as_ids s; d' ← as_ids d;
      VGraph <$> dgl_graph s' d');
    print_graph "g" ].

Definition cell_query : list stmt :=
  [ print (λ ns, g ← get_graph "g" ns; Ok (VInt (Z.of_nat (number_of_nodes g))));
    print (λ ns, g ← get_graph "g" ns; Ok (VInt (Z.of_nat (number_of_edges g))));
    print (λ ns, g ← get_graph "g" ns; VInt <$> in_degree g 0);
    print (λ ns, g ← get_graph "g" ns; (VTensor ∘ LongVec) <$> successors g 0) ].

Definition cell_age : list stmt :=
  [ assign "age" (λ ns,
      df ← get_frame "nodes_data" ns; c ← getcol df "Age";
      t ← torch_tensor c;
      Ok (VTensor (tensor_div (tensor_float t) 100)));
    print (lookup_var "age");
    print (λ ns, t ← get_tensor "age" ns; VTensor <$> tensor_index t [0; 10]);
    stmt_set_age;
    print_graph "g" ].

Definition cell_club : list stmt :=
  [ assign "club" (λ ns,
      df ← get_frame "nodes_data" ns; VArray <$> getcol df "Club");
    assign "club" (λ ns,
      c ← get_array "club" ns; Ok (VTensor (LongVec (club_encoding c))));
    assign "club_onehot" (λ ns,
      t ← get_tensor "club" ns; VTensor <$> one_hot_tensor t);
    print (lookup_var "club_onehot");
    stmt_update_club;
    stmt_del_age;
    print_graph "g" ].

Definition cell_weight : list stmt :=
  [ assign "edge_weight" (λ ns,
      df ← get_frame "edges_data" ns; c ← getcol df "Weight";
      VTensor <$> torch_tensor c);
    stmt_set_weight;
    print_graph "g" ].

Definition notebook1 : list stmt :=
  cell_nodes_data ++ cell_edges_data ++ cell_graph ++ cell_query
  ++ cell_age ++ cell_club ++ cell_weight.


(** Modelled from the spec: [tutorial_utils.load_zachery] is not part of
    the sources.  The second notebook says the function loads "the graph
    and node labels as is covered in the last session", and the summary
    it prints has the node features [club] and [club_onehot] and no edge
    feature: the steps of [1_load_data] without the age and the weight. *)
Definition load_zachery : result (DGLGraph F) :=
  nodes_data ← read_csv "data/nodes.csv";
  edges_data ← read_csv "data/edges.csv";
  src ← getcol edges_data "Src";
  dst ← getcol edges_data "Dst";
  s ← as_ids src; d ← as_ids dst;
  g ← dgl_graph s d;
  club ← getcol nodes_data "Club";
  let club := club_encoding club in
  club_onehot ← one_hot club;
  ndata_update [("club", LongVec club); ("club_onehot", LongMat club_onehot)] g.

End Notebook1.
End Script.
Arguments pyobj : clear implicits.
Arguments state : clear implicits.
Arguments stmt : clear implicits.

(** ** The GraphSAGE model and its training *)

Section Model.
Context {F : Type} `{!FloatOps F}.

Abbreviation matrix := (list (list F)).

(** A [dgl.nn.SAGEConv] module: its dimensions, its aggregator and its
    learnable tensors. *)
Record SAGEConv : Type := {
  in_feats : nat;
  out_feats : nat;
  aggregator : string;
  params : list matrix
}.

(** [nn.Embedding]: a dense table with one row per embedding. *)
Record Embedding : Type := {
  num_embeddings : nat;
  embedding_dim : nat;
  weight : matrix
}.

(** The class defined in the notebook. *)
Record GraphSAGE : Type := {
  conv1 : SAGEConv;
  conv2 : SAGEConv
}.

(** The learnable tensors live in the modules; the optimizer and the
    variable [inputs] hold references to them, not copies. *)
Inductive param_ref : Type :=
| Conv1Param (i : nat)
| Conv2Param (i : nat)
| EmbedWeight.

#[global] Instance param_ref_eq_dec : EqDecision param_ref.
Proof. solve_decision. Defined.

Record modules : Type := {
  net : GraphSAGE;
  node_embed : Embedding
}.

Definition read_param (m : modules) (r : param_ref) : option matrix :=
  match r with
  | Conv1Param i => params (conv1 (net m)) !! i
  | Conv2Param i => params (conv2 (net m)) !! i
  | EmbedWeight => Some (weight (node_embed m))
  end.

Definition set_params (c : SAGEConv) (ps : list matrix) : SAGEConv :=
  {| in_feats := in_feats c; out_feats := out_feats c;
     aggregator := aggregator c; params := ps |}.

Definition set_weight (emb : Embedding) (w : matrix) : Embedding :=
  {| num_embeddings := num_embeddings emb;
     embedding_dim := embedding_dim emb; weight := w |}.

Definition write_param (m : modules) (r : param_ref) (v : matrix) : modules :=
  match r with
  | Conv1Param i =>
      {| net := {| conv1 := set_params (conv1 (net m)) (<[i := v]> (params (conv1 (net m))));
                   conv2 := conv2 (net m) |};
         node_embed := node_embed m |}
  | Conv2Param i =>
      {| net := {| conv1 := conv1 (net m);
                   conv2 := set_params (conv2 (net m)) (<[i := v]> (params (conv2 (net m)))) |};
         node_embed := node_embed m |}
  | EmbedWeight =>
      {| net := net m; node_embed := set_weight (node_embed m) v |}
  end.

(** [module.parameters()] *)
Definition SAGEConv_parameters (ref : nat → param_ref) (c : SAGEConv)
    : list param_ref :=
  ref <$> seq 0 (length (params c)).

Definition GraphSAGE_parameters (n : GraphSAGE) : list param_ref :=
  SAGEConv_parameters Conv1Param (conv1 n)
  ++ SAGEConv_parameters Conv2Param (conv2 n).

Definition Embedding_parameters (emb : Embedding) : list param_ref :=
  [EmbedWeight].

(** [F.relu] and [F.log_softmax(_, 1)], entry by entry and row by row. *)
Definition relu (h : matrix) : matrix := map frelu <$> h.
Definition log_softmax (h : matrix) : matrix := log_softmax_row <$> h.

(** The library kernels the second notebook calls: the SAGEConv layer, the
    random initialisers, Adam's update of one tensor and autograd, which
    differentiates a loss at the current parameters.  Nothing is assumed
    about them. *)
Class Kernels : Type := {
  SAGEConv_call : SAGEConv → DGLGraph F → matrix → matrix;
  conv_init : nat → nat → list matrix;      (* initial layer tensors *)
  normal_ : nat → nat → F;                  (* [nn.Embedding]'s initial entries *)
  xavier : nat → nat → F;                   (* entries drawn by [xavier_uniform_] *)
  AdamState : Type;
  adam_init : AdamState;
  adam_step : Q → AdamState → matrix → matrix → AdamState * matrix;
  autograd : (modules → result F) → modules → param_ref → matrix
}.

Context `{!Kernels}.

Definition SAGEConv_new (i o : nat) (agg : string) : SAGEConv :=
  {| in_feats := i; out_feats := o; aggregator := agg; params := conv_init i o |}.

(** [GraphSAGE.__init__] *)
Definition GraphSAGE_new (in_feats h_feats num_classes : nat) : GraphSAGE :=
  {| conv1 := SAGEConv_new in_feats h_feats "mean";
     conv2 := SAGEConv_new h_feats num_classes "mean" |}.

(** [GraphSAGE.forward] *)
Definition GraphSAGE_forward (self : GraphSAGE) (g : DGLGraph F)
    (in_feat : matrix) : matrix :=
  let h := SAGEConv_call (conv1 self) g in_feat in
  let h := relu h in
  let h := SAGEConv_call (conv2 self) g h in
  h.

(** [nn.Embedding(n, d)] and [nn.init.xavier_uniform_], which refills its
    argument in place. *)
Definition Embedding_new (n d : nat) : Embedding :=
  {| num_embeddings := n; embedding_dim := d;
     weight := (λ i, normal_ i <$> seq 0 d) <$> seq 0 n |}.

Definition xavier_uniform_ (w : matrix) : matrix :=
  imap (λ i row, imap (λ j _, xavier i j) row) w.

(** [torch.optim.Adam(params, lr)]: the references it was given and one
    state per reference. *)
Record Adam : Type := {
  param_groups : list param_ref;
  lr : Q;
  opt_state : list AdamState
}.

Definition Adam_new (refs : list param_ref) (rate : Q) : Adam :=
  {| param_groups := refs; lr := rate;
     opt_state := replicate (length refs) adam_init |}.

(** [optimizer.step()]: every tensor the optimizer refers to is replaced by
    Adam's update of it; no other tensor is touched. *)
Fixpoint adam_steps (rate : Q) (refs : list param_ref) (sts : list AdamState)
    (grads : param_ref → matrix) (m : modules) : list AdamState * modules :=
  match refs, sts with
  | r :: refs', s :: sts' =>
      match read_param m r with
      | Some p =>
          let '(s', p') := adam_step rate s p (grads r) in
          let '(ss, m') := adam_steps rate refs' sts' grads (write_param m r p') in
          (s' :: ss, m')
      | None =>
          let '(ss, m') := adam_steps rate refs' sts' grads m in
          (s :: ss, m')
      end
  | _, _ => (sts, m)
  end.

Definition Adam_step (o : Adam) (grads : param_ref → matrix) (m : modules)
    : Adam * modules :=
  let '(ss, m') := adam_steps (lr o) (param_groups o) (opt_state o) grads m in
  ({| param_groups := param_groups o; lr := lr o; opt_state := ss |}, m').

Definition labeled_nodes : list Z := [0; 33].

Definition as_long_vec (t : tensor F) : result (list Z) :=
  match t with
  | LongVec v => Ok v
  | _ => Raise RuntimeError
  end.

(** A target of [F.nll_loss] is a class of its row of log-probabilities,
    or the ignored index (-100 by default). *)
Definition target_in_bounds (row : list F) (t : Z) : bool :=
  (t =? -100) || ((0 <=? t) && (t <? Z.of_nat (length row))).

(** [F.nll_loss(input, target)]: the two batch sizes must agree
    ([ValueError]) and every target must be in bounds ([IndexError],
    "Target t is out of bounds"); the value is then the kernel's. *)
Definition F_nll_loss (input : matrix) (target : list Z) : result F :=
  if negb (length input =? length target)%nat then Raise ValueError
  else if forallb (λ rt : list F * Z, target_in_bounds rt.1 rt.2) (zip input target)
  then Ok (nll_loss input target)
  else Raise IndexError.

(** The loss of one epoch, from the logits of all nodes:
    [F.nll_loss(F.log_softmax(logits, 1)[labeled_nodes], labels[labeled_nodes])]. *)
Definition training_loss (logits : matrix) (labels : tensor F) : result F :=
  let logp := log_softmax logits in
  sel ← index_rows logp labeled_nodes;
  lab ← tensor_index labels labeled_nodes;
  target ← as_long_vec lab;
  F_nll_loss sel target.

(** The variables of the training cell. *)
Record train_state : Type := {
  mods : modules;
  optimizer : Adam;
  all_logits : list matrix;
  logits : option matrix;
  losses : list (nat * F)           (* the lines printed every fifth epoch *)
}.

(** [inputs = node_embed.weight]: the same tensor object, so [inputs]
    follows every update of the embedding. *)
Definition inputs (m : modules) : matrix := weight (node_embed m).

(** The body of the training loop for epoch [e]. *)
Definition epoch (g : DGLGraph F) (labels : tensor F) (e : nat)
    (st : train_state) : result train_state :=
  let lg := GraphSAGE_forward (net (mods st)) g (inputs (mods st)) in
  loss ← training_loss lg labels;
  (* zero_grad, backward, step *)
  let grads :=
    autograd (λ m, training_loss (GraphSAGE_forward (net m) g (inputs m)) labels)
             (mods st) in
  let '(o', m') := Adam_step (optimizer st) grads (mods st) in
  Ok {| mods := m'; optimizer := o';
        all_logits := all_logits st ++ [lg];
        logits := Some lg;
        losses := if (e mod 5 =? 0)%nat then losses st ++ [(e, loss)]
                  else losses st |}.

(** [for e in range(n): body] *)
Fixpoint for_range {S} (body : nat → S → result S) (es : list nat) (st : S)
    : result S :=
  match es with
  | [] => Ok st
  | e :: es' => st' ← body e st; for_range body es' st'
  end.

Definition range (n : nat) : list nat := seq 0 n.

(** Cells 1 to 3: node features, labels, model and optimizer. *)
Definition setup (g : DGLGraph F) : result (tensor F * train_state) :=
  let emb := Embedding_new (number_of_nodes g) 5 in
  let emb := set_weight emb (xavier_uniform_ (weight emb)) in
  labels ← match ndata g !! "club" with
           | Some t => Ok t
           | None => Raise (KeyError "club")
           end;
  _ ← tensor_index labels labeled_nodes;        (* print('Labels', ...) *)
  let n := GraphSAGE_new 5 16 2 in
  let o := Adam_new (GraphSAGE_parameters n ++ Embedding_parameters emb) (1 # 100) in
  Ok (labels,
      {| mods := {| net := n; node_embed := emb |}; optimizer := o;
         all_logits := []; logits := None; losses := [] |}).

(** Cell 4: the training loop. *)
Definition train (g : DGLGraph F) : result (tensor F * train_state) :=
  '(labels, st) ← setup g;
  st' ← for_range (epoch g labels) (range 100) st;
  Ok (labels, st').

(** Cell 5: [pred = torch.argmax(logits, axis=1)] and the accuracy. *)
Definition accuracy (lg : matrix) (labels : tensor F) : result Q :=
  pred ← argmax_axis1 fgtb lg;
  lab ← as_long_vec labels;
  hits ← eq_long pred lab;
  true_div (sum_bool hits) (length pred).

Definition check_results (labels : tensor F) (st : train_state) : result Q :=
  match logits st with
  | Some lg => accuracy lg labels
  | None => Raise (NameError "logits")
  end.

(** The second notebook, from the loaded graph to the printed accuracy. *)
Definition notebook2 (g : DGLGraph F) : result (train_state * Q) :=
  '(labels, st) ← train g;
  acc ← check_results labels st;
  Ok (st, acc).

(** What the notebook relies on from [SAGEConv]: a layer returns one row
    per node of the graph, with [out_feats] entries. *)
Definition SAGEConv_shapes : Prop :=
  ∀ (c : SAGEConv) (g : DGLGraph F) (x : matrix),
    length (SAGEConv_call c g x) = number_of_nodes g
    ∧ Forall (λ row, length row = out_feats c) (SAGEConv_call c g x).

(** What the notebook relies on from [F.log_softmax]: the result has the
    shape of the argument. *)
Definition log_softmax_shapes : Prop :=
  ∀ row : list F, length (log_softmax_row row) = length row.

(** The number of nodes whose predicted class is their label. *)
Definition correct_nodes (pred labels : list Z) : nat :=
  length (filter (λ i, pred !! i = labels !! i) (seq 0 (length pred))).


End Model.

(** ** The tutorial's data *)

Section Zachery.
Context {F : Type}.

(** Modelled from the spec: [data/nodes.csv] and [data/edges.csv] are not
    part of the sources.  The spec names the dataset (Zachary's karate
    club, 34 nodes) and the columns [Id]/[Age]/[Club] and
    [Src]/[Dst]/[Weight]; the notebooks say that the instructor is node 0
    and the club president node 33, and the summary recorded in the second
    notebook has 156 edges: the 78 pairs of the club's network, in both
    directions.  The values of [Age] and [Weight] are not fixed by any of
    these and are left open. *)
Definition zachery_src : list Z :=
  [0; 0; 0; 0; 0; 0; 0; 0; 0; 0; 0; 0; 0; 0; 0; 0; 1; 1; 1; 1; 1; 1; 1; 1; 1;
   2; 2; 2; 2; 2; 2; 2; 2; 2; 2; 3; 3; 3; 3; 3; 3; 4; 4; 4; 5; 5; 5; 5; 6; 6;
   6; 6; 7; 7; 7; 7; 8; 8; 8; 8; 8; 9; 9; 10; 10; 10; 11; 12; 12; 13; 13; 13;
   13; 13; 14; 14; 15; 15; 16; 16; 17; 17; 18; 18; 19; 19; 19; 20; 20; 21; 21;
   22; 22; 23; 23; 23; 23; 23; 24; 24; 24; 25; 25; 25; 26; 26; 27; 27; 27; 27;
   28; 28; 28; 29; 29; 29; 29; 30; 30; 30; 30; 31; 31; 31; 31; 31; 31; 32; 32;
   32; 32; 32; 32; 32; 32; 32; 32; 32; 32; 33; 33; 33; 33; 33; 33; 33; 33; 33;
   33; 33; 33; 33; 33; 33; 33; 33].

(** Modelled from the spec: the [Dst] column, row by row with [Src]. *)
Definition zachery_dst : list Z :=
  [1; 2; 3; 4; 5; 6; 7; 8; 10; 11; 12; 13; 17; 19; 21; 31; 0; 2; 3; 7; 13; 17;
   19; 21; 30; 0; 1; 3; 7; 8; 9; 13; 27; 28; 32; 0; 1; 2; 7; 12; 13; 0; 6; 10;
   0; 6; 10; 16; 0; 4; 5; 16; 0; 1; 2; 3; 0; 2; 30; 32; 33; 2; 33; 0; 4; 5; 0;
   0; 3; 0; 1; 2; 3; 33; 32; 33; 32; 33; 5; 6; 0; 1; 32; 33; 0; 1; 33; 32; 33;
   0; 1; 32; 33; 25; 27; 29; 32; 33; 25; 27; 31; 23; 24; 31; 29; 33; 2; 23;
   24; 33; 2; 31; 33; 23; 26; 32; 33; 1; 8; 32; 33; 0; 24; 25; 28; 32; 33; 2;
   8; 14; 15; 18; 20; 22; 23; 29; 30; 31; 33; 8; 9; 13; 14; 15; 18; 19; 20;
   22; 23; 26; 27; 28; 29; 30; 31; 32].

(** Modelled from the spec: the members who stayed with the instructor
    (['Mr. Hi']); the others followed the president (['Officer']). *)
Definition zachery_mr_hi : list Z :=
  [0; 1; 2; 3; 4; 5; 6; 7; 8; 10; 11; 12; 13; 16; 17; 19; 21].

Definition zachery_ids : list Z := Z.of_nat <$> seq 0 34.

(** Modelled from the spec: the [Club] column. *)
Definition zachery_club : list string :=
  (λ v, if bool_decide (v ∈ zachery_mr_hi) then "Mr. Hi" else "Officer")
    <$> zachery_ids.

(** Modelled from the spec: the two tables, for any ages and weights. *)
Definition nodes_csv (ages : list Z) : gmap string (column F) :=
  <["Id" := IntCol zachery_ids]>
    (<["Age" := IntCol ages]> (<["Club" := StrCol zachery_club]> ∅)).

Definition edges_csv (weights : list F) : gmap string (column F) :=
  <["Src" := IntCol zachery_src]>
    (<["Dst" := IntCol zachery_dst]> (<["Weight" := FloatCol weights]> ∅)).

(** The [data] directory of the tutorial. *)
Definition tutorial_files (ages : list Z) (weights : list F) (path : string)
    : result (gmap string (column F)) :=
  if String.eqb path "data/nodes.csv" then Ok (nodes_csv ages)
  else if String.eqb path "data/edges.csv" then Ok (edges_csv weights)
  else Raise (FileNotFoundError path).

End Zachery.

(** ** An integer instance

    Integer stand-ins for the floating-point kernels, on which the
    definitions above can be run. *)

Module IntKernels.

Definition sum_list (l : list Z) : Z := foldr Z.add 0 l.

#[global] Instance int_ops : FloatOps Z := {|
  of_long := id;
  fdiv := Z.div;
  frelu := Z.max 0;
  fgtb := Z.gtb;
  log_softmax_row := λ r, (λ x, x - max_list r) <$> r;
  nll_loss := λ sel target,
    - sum_list (zip_with (λ row t, default 0 (row !! Z.to_nat t)) sel target)
      `div` Z.of_nat (length sel)
|}.

Definition feat (x : list (list Z)) (v : Z) : Z :=
  sum_list (default [] (x !! Z.to_nat v)).

(** A mean aggregator in integer arithmetic: every output entry combines
    the node's own features with the mean over its in-neighbours. *)
Definition mean_conv (c : SAGEConv (F:=Z)) (g : DGLGraph Z) (x : list (list Z))
    : list (list Z) :=
  (λ v : nat,
     let neigh := fst <$> filter (λ e, e.2 = Z.of_nat v) (edges g) in
     let agg := sum_list (feat x <$> neigh) `div` Z.max 1 (Z.of_nat (length neigh)) in
     let w := sum_list (sum_list <$> (default [] (head (params c)))) in
     (λ j : nat, (feat x (Z.of_nat v) - agg + Z.of_nat v `mod` 3 - 1)
                 * (Z.of_nat j * 2 - 1) + w `mod` 3)
       <$> seq 0 (out_feats c))
    <$> seq 0 (number_of_nodes g).

#[global] Instance int_kernels : Kernels (F:=Z) := {|
  SAGEConv_call := mean_conv;
  conv_init := λ i o, [replicate o (replicate i 1); [replicate o 0]];
  normal_ := λ i j, Z.of_nat ((i + j) mod 3) - 1;
  xavier := λ i j, Z.of_nat ((i * 7 + j * 3) mod 5) - 2;
  AdamState := nat;
  adam_init := 0%nat;
  adam_step := λ _ s p gr, (S s, zip_with (zip_with Z.sub) p gr);
  autograd := λ _ m r, map (λ _, 1) <$> default [] (read_param m r)
|}.

(** Two small tables whose row counts disagree: eleven members, and one
    interaction that names a twelfth. *)
Definition small_nodes : gmap string (column Z) :=
  <["Id" := IntCol (Z.of_nat <$> seq 0 11)]>
    (<["Age" := IntCol (replicate 11 30)]>
       (<["Club" := StrCol (replicate 10 "Mr. Hi" ++ ["Officer"])]> ∅)).

Definition small_edges : gmap string (column Z) :=
  <["Src" := IntCol [0]]>
    (<["Dst" := IntCol [11]]> (<["Weight" := FloatCol [1]]> ∅)).

Definition small_files (path : string) : result (gmap string (column Z)) :=
  if String.eqb path "data/nodes.csv" then Ok small_nodes
  else if String.eqb path "data/edges.csv" then Ok small_edges
  else Raise (FileNotFoundError path).

(** A graph of two nodes with the three node features of the notebook,
    bound to [g] in an otherwise empty namespace. *)
Definition tiny_graph : DGLGraph Z :=
  {| num_nodes := 2; edge_src := [0]; edge_dst := [1];
     ndata := <["age" := FloatVec [30; 31]]>
                (<["club" := LongVec [0; 1]]>
                   (<["club_onehot" := LongMat [[1; 0]; [0; 1]]]> ∅));
     edata := ∅ |}.

Definition tiny_state : state Z :=
  {| vars := <["g" := VGraph tiny_graph]> ∅; out := [] |}.

(** The same namespace after [club] and [club_onehot] were computed. *)
Definition club_state : state Z :=
  {| vars := <["club_onehot" := VTensor (LongMat [[1; 0]; [0; 1]])]>
               (<["club" := VTensor (LongVec [0; 1])]> (vars tiny_state));
     out := [] |}.

(** The tutorial's tables with every age 30 and every weight 1. *)
Definition zachery_files : string → result (gmap string (column Z)) :=
  tutorial_files (replicate 34 30) (replicate 156 1).

(** A stand-in for the plotting library: networkx raises for a node
    without a position, matplotlib for a position that has not two
    coordinates and for a number of colours that is not the number of
    nodes. *)
Definition nx_draw_check (G : DGLGraph Z) (pos : gmap Z (list Z))
    (colors : list string) : result unit :=
  if negb (forallb (λ v, bool_decide (is_Some (pos !! v))) (nodes G))
  then Raise NetworkXError
  else if negb (forallb (λ v, bool_decide (length <$> pos !! v = Some 2%nat)) (nodes G))
  then Raise ValueError
  else if negb (length colors =? number_of_nodes G)%nat then Raise ValueError
  else Ok tt.

(** The loaded karate club graph, its labels and the state before the
    first epoch. *)
Definition empty_graph : DGLGraph Z :=
  {| num_nodes := 0; edge_src := []; edge_dst := []; ndata := ∅; edata := ∅ |}.

Definition zachery_graph : DGLGraph Z :=
  match load_zachery zachery_files with
  | Ok g => g
  | Raise _ => empty_graph
  end.

Definition zachery_club_ids : list Z := club_encoding (F:=Z) (StrCol zachery_club).

Definition zachery_labels : tensor Z :=
  default (LongVec []) (ndata zachery_graph !! "club").

Definition zachery_start : train_state :=
  match setup zachery_graph with
  | Ok (_, st) => st
  | Raise _ =>
      {| mods := {| net := GraphSAGE_new 5 16 2; node_embed := Embedding_new 0 5 |};
         optimizer := Adam_new [] 0; all_logits := []; logits := None; losses := [] |}
  end.

End IntKernels.

(** ** The remaining cells *)

Section MoreCells.
Context {F : Type} `{!FloatOps F}.

(** [torch.randn(n, d)]: a fresh float tensor of [n] rows and [d] columns;
    [rnd] stands for the draws of the generator. *)
Definition randn (rnd : nat → nat → F) (n d : nat) : tensor F :=
  FloatMat ((λ i, rnd i <$> seq 0 d) <$> seq 0 n).

Section SrcDst.
Variable rnd_src rnd_dst : nat → nat → F.

(** The cell that assigns [g.srcdata['src_h']] and [g.dstdata['dst_h']].
    On a graph with a single node type both views are the node features
    [g.ndata], which is how the next cell reads [src_h] back. *)
Definition cell_src_dst : list (stmt F) :=
  [ update_graph "g" (λ _ g, set_ndata "src_h" (randn rnd_src 34 4) g);
    update_graph "g" (λ _ g, set_ndata "dst_h" (randn rnd_dst 34 7) g);
    print_graph "g" ].

(** [print(g.ndata['src_h'])] *)
Definition cell_print_src_h : list (stmt F) :=
  [ print (λ ns,
      g ← get_graph "g" ns;
      match ndata g !! "src_h" with
      | Some t => Ok (VTensor t)
      | None => Raise (KeyError "src_h")
      end) ].

End SrcDst.

(** *** Drawing one epoch *)

(** What [draw(i)] hands to the plotting library: the title, the position
    of every node and the colour of every node. *)
Record frame : Type := {
  title : Z;
  pos : gmap Z (list F);
  node_color : list string
}.

Definition cls1color : string := "#00FFFF".
Definition cls2color : string := "#FF00FF".

Section Draw.
(** Truth value of a float, as [if cls] takes it. *)
Variable fnonzero : F → bool.

(** [nx.draw(G, pos, node_color=colors, with_labels=True, node_size=200)]
    on the undirected copy of the graph: the plotting library, which draws
    the nodes at their positions or raises. *)
Variable nx_draw : DGLGraph F → gmap Z (list F) → list string → result unit.

(** [labels[v]] used as a condition: a single entry is true when it is
    not zero; a row of several entries has no truth value. *)
Definition label_truth (labels : tensor F) (v : Z) : result bool :=
  match labels with
  | LongVec l => c ← index_one l v; Ok (negb (c =? 0))
  | FloatVec l => c ← index_one l v; Ok (fnonzero c)
  | LongMat m =>
      row ← index_one m v;
      match row with [c] => Ok (negb (c =? 0)) | _ => Raise RuntimeError end
  | FloatMat m =>
      row ← index_one m v;
      match row with [c] => Ok (fnonzero c) | _ => Raise RuntimeError end
  end.

(** The body of [for v in range(34)] in [draw]. *)
Definition draw_node (all_logits : list (list (list F))) (labels : tensor F)
    (i : Z) (v : nat) (acc : gmap Z (list F) * list string)
    : result (gmap Z (list F) * list string) :=
  pred ← index_one all_logits i;
  p ← index_one pred (Z.of_nat v);
  cls ← label_truth labels (Z.of_nat v);
  Ok (<[Z.of_nat v := p]> acc.1,
      acc.2 ++ [if (cls : bool) then cls1color else cls2color]).

(** [draw(i)], for the graph [nx_G = g.to_networkx()] of the cell: the
    loop over the 34 nodes, then the title and the call of [nx.draw]. *)
Definition draw (nx_G : DGLGraph F) (all_logits : list (list (list F)))
    (labels : tensor F) (i : Z) : result frame :=
  acc ← for_range (draw_node all_logits labels i) (range 34)
          ((∅ : gmap Z (list F)), ([] : list string));
  _ ← nx_draw nx_G acc.1 acc.2;
  Ok {| title := i; pos := acc.1; node_color := acc.2 |}.

(** [FuncAnimation(fig, draw, frames=len(all_logits))], rendered: one call
    of [draw] per frame number. *)
Definition animation (nx_G : DGLGraph F) (all_logits : list (list (list F)))
    (labels : tensor F) : result (list frame) :=
  mapM (λ i : nat, draw nx_G all_logits labels (Z.of_nat i))
       (range (length all_logits)).

(** What the cell relies on from [nx.draw]: the figure is drawn when every
    node of the graph has a position of two coordinates and there is one
    colour per node. *)
Definition nx_draw_draws : Prop :=
  ∀ (G : DGLGraph F) (pos : gmap Z (list F)) (colors : list string),
    (∀ v, (v < number_of_nodes G)%nat →
          ∃ p, pos !! Z.of_nat v = Some p ∧ length p = 2%nat) →
    length colors = number_of_nodes G →
    nx_draw G pos colors = Ok tt.

End Draw.
End MoreCells.
Arguments frame : clear implicits.

Section OptimizerInvariant.
Context {F : Type} `{!FloatOps F} `{!Kernels (F:=F)}.

(** The optimizer refers to every tensor of the network and to the
    embedding's weight, in this order, and has one state per tensor. *)
Definition optimizer_covers_all (st : train_state) : Prop :=
  param_groups (optimizer st)
  = GraphSAGE_parameters (net (mods st)) ++ [EmbedWeight]
  ∧ length (opt_state (optimizer st)) = length (param_groups (optimizer st)).

(** Two module states with the same layout: dimensions, aggregators and
    number of tensors. *)
Definition same_layout (m m' : modules (F:=F)) : Prop :=
  in_feats (conv1 (net m')) = in_feats (conv1 (net m))
  ∧ out_feats (conv1 (net m')) = out_feats (conv1 (net m))
  ∧ aggregator (conv1 (net m')) = aggregator (conv1 (net m))
  ∧ in_feats (conv2 (net m')) = in_feats (conv2 (net m))
  ∧ out_feats (conv2 (net m')) = out_feats (conv2 (net m))
  ∧ aggregator (conv2 (net m')) = aggregator (conv2 (net m))
  ∧ length (params (conv1 (net m'))) = length (params (conv1 (net m)))
  ∧ length (params (conv2 (net m'))) = length (params (conv2 (net m)))
  ∧ num_embeddings (node_embed m') = num_embeddings (node_embed m)
  ∧ embedding_dim (node_embed m') = embedding_dim (node_embed m).

(** The hyper-parameters fixed by the notebook. *)
Definition notebook_dimensions (g : DGLGraph F) (st : train_state) : Prop :=
  in_feats (conv1 (net (mods st))) = 5%nat
  ∧ out_feats (conv1 (net (mods st))) = 16%nat
  ∧ aggregator (conv1 (net (mods st))) = "mean"%string
  ∧ in_feats (conv2 (net (mods st))) = 16%nat
  ∧ out_feats (conv2 (net (mods st))) = 2%nat
  ∧ aggregator (conv2 (net (mods st))) = "mean"%string
  ∧ length (params (conv1 (net (mods st)))) = length (conv_init 5 16)
  ∧ length (params (conv2 (net (mods st)))) = length (conv_init 16 2)
  ∧ num_embeddings (node_embed (mods st)) = number_of_nodes g
  ∧ embedding_dim (node_embed (mods st)) = 5%nat
  ∧ lr (optimizer st) = (1 # 100)%Q.

End OptimizerInvariant.

(** * Properties *)

(** ** Sanity checks on concrete inputs *)

Example load_zachery_runs :
  is_ok (load_zachery IntKernels.zachery_files) = true.
Proof. vm_compute. reflexivity. Qed.

(** ** The result monad and sequential execution *)

Lemma bind_ok {A B} (m : result A) (f : A → result B) (b : B) :
  m ≫= f = Ok b → ∃ a, m = Ok a ∧ f a = Ok b.
Proof. destruct m as [a|e]; [eauto | discriminate]. Qed.

Lemma is_ok_inv {A} (m : result A) : is_ok m = true → ∃ a, m = Ok a.
Proof. destruct m as [a|e]; [eauto | discriminate]. Qed.

Lemma bind_raise {A B} (m : result A) (f : A → result B) (e : exn) :
  m = Raise e → m ≫= f = Raise e.
Proof. intros ->. reflexivity. Qed.

Lemma mapM_length {A B} (f : A → result B) (l : list A) (bs : list B) :
  mapM f l = Ok bs → length bs = length l.
Proof.
  revert bs. induction l as [|a l IH]; intros bs; simpl.
  - intros [= <-]. reflexivity.
  - destruct (f a) as [b|e]; [simpl | discriminate].
    destruct (mapM f l) as [bs'|e]; [simpl | discriminate].
    intros [= <-]. simpl. f_equal. apply IH. reflexivity.
Qed.

Lemma mapM_lookup {A B} (f : A → result B) (l : list A) (bs : list B) (i : nat) :
  mapM f l = Ok bs →
  bs !! i = None ∧ l !! i = None
  ∨ ∃ a b, l !! i = Some a ∧ bs !! i = Some b ∧ f a = Ok b.
Proof.
  revert bs i. induction l as [|a l IH]; intros bs i; simpl.
  - intros [= <-]. left. split; apply lookup_nil.
  - destruct (f a) as [b|e] eqn:Hf; [simpl | discriminate].
    destruct (mapM f l) as [bs'|e] eqn:Hm; [simpl | discriminate].
    intros [= <-]. destruct i as [|i]; simpl.
    + right. eauto.
    + apply IH. reflexivity.
Qed.

Section RunFacts.
Context {F : Type} `{!FloatOps F}.

(** Running a prefix that succeeds and then the rest is running the whole
    script. *)
Lemma run_app (pre post : list (stmt F)) (st st' : state F) :
  run pre st = (st', None) → run (pre ++ post) st = run post st'.
Proof.
  revert st. induction pre as [|s pre IH]; intros st; simpl.
  - intros [= ->]. reflexivity.
  - destruct (s st) as [st1 [e|]]; [discriminate | apply IH].
Qed.


Lemma assign_raises x (rhs : gmap string (pyobj F) → result (pyobj F)) st e :
  rhs (vars st) = Raise e → assign x rhs st = (st, Some e).
Proof. unfold assign. intros ->. reflexivity. Qed.

Lemma print_raises (rhs : gmap string (pyobj F) → result (pyobj F)) st e :
  rhs (vars st) = Raise e → print rhs st = (st, Some e).
Proof. unfold print. intros ->. reflexivity. Qed.

Lemma get_graph_insert x (g : DGLGraph F) (ns : gmap string (pyobj F)) :
  get_graph x (<[x := VGraph g]> ns) = Ok g.
Proof. unfold get_graph, lookup_var. rewrite lookup_insert_eq. reflexivity. Qed.

End RunFacts.

(** ** Graph construction *)

Lemma max_list_ge (l : list Z) (x : Z) : x ∈ l → x ≤ max_list l.
Proof.
  induction l as [|y l IH]; [intros H; inversion H |].
  rewrite elem_of_cons. unfold max_list in *. simpl. intros [-> | H].
  - apply Z.le_max_l.
  - specialize (IH H). lia.
Qed.

Lemma max_list_elem (l : list Z) : l ≠ [] → max_list l ∈ l ∨ max_list l = -1.
Proof.
  induction l as [|y l IH]; [congruence | intros _].
  unfold max_list in *. simpl.
  destruct (Z.max_spec y (foldr Z.max (-1) l)) as [[_ ->] | [_ ->]].
  - destruct l as [|z l]; [right; reflexivity |].
    destruct IH as [IH | IH]; [congruence | left; right; exact IH | right; exact IH].
  - left. left.
Qed.

Lemma elem_of_nodes {F} (g : DGLGraph F) (v : Z) :
  v ∈ nodes g ↔ 0 ≤ v < Z.of_nat (number_of_nodes g).
Proof.
  unfold nodes, number_of_nodes. rewrite list_elem_of_fmap. split.
  - intros (i & -> & Hi). apply elem_of_seq in Hi. lia.
  - intros Hv. exists (Z.to_nat v). split; [lia |].
    apply elem_of_seq. lia.
Qed.

(** C6: in the graph [dgl.graph((src, dst))] builds from the [Src] and
    [Dst] columns, the node ids are the contiguous integers
    [0 .. number_of_nodes - 1], the edges are the given pairs, and every
    entry of [src] and [dst] is a node of the graph (it is non-negative and
    less than the number of nodes). *)
Theorem dgl_graph_node_ids {F : Type} (csrc cdst : column F)
    (src dst : list Z) (g : DGLGraph F) :
  as_ids csrc = Ok src → as_ids cdst = Ok dst → dgl_graph src dst = Ok g →
  nodes g = Z.of_nat <$> seq 0 (number_of_nodes g)
  ∧ (∀ v, v ∈ nodes g ↔ 0 ≤ v < Z.of_nat (number_of_nodes g))
  ∧ edge_src g = src ∧ edge_dst g = dst
  ∧ Forall (λ v, 0 ≤ v < Z.of_nat (number_of_nodes g)) (src ++ dst)
  ∧ (∀ u v, (u, v) ∈ edges g → u ∈ nodes g ∧ v ∈ nodes g).
Proof.
  intros _ _. unfold dgl_graph.
  destruct (negb (length src =? length dst)%nat); [discriminate |].
  destruct (forallb (λ v, 0 <=? v) (src ++ dst)) eqn:Hpos; [simpl | discriminate].
  intros [= <-].
  assert (Hall : Forall (λ v, 0 ≤ v < Z.of_nat (Z.to_nat (max_list (src ++ dst) + 1)))
                   (src ++ dst)).
  { apply Forall_forall. intros v Hv.
    pose proof (max_list_ge _ _ Hv) as Hle.
    rewrite forallb_forall in Hpos.
    apply list_elem_of_In in Hv. apply Hpos in Hv. lia. }
  split; [reflexivity |]. split; [apply elem_of_nodes |].
  split; [reflexivity |]. split; [reflexivity |]. split; [exact Hall |].
  intros u v Huv. unfold edges in Huv. simpl in Huv.
  rewrite Forall_app, !Forall_forall in Hall. destruct Hall as [Hs Hd].
  split; apply elem_of_nodes; simpl.
  - apply Hs. eapply elem_of_zip_l, Huv.
  - apply Hd. eapply elem_of_zip_r, Huv.
Qed.

Lemma dgl_graph_node_ids_witness :
  ∃ g : DGLGraph Z,
    dgl_graph [0; 2] [1; 0] = Ok g
    ∧ nodes g = [0; 1; 2]
    ∧ Forall (λ v, 0 ≤ v < Z.of_nat (number_of_nodes g)) ([0; 2] ++ [1; 0]).
Proof.
  eexists. split; [reflexivity |]. split; [reflexivity |].
  apply (dgl_graph_node_ids (F:=Z) (IntCol [0; 2]) (IntCol [1; 0]) [0; 2] [1; 0]);
    reflexivity.
Defined.

(** ** The karate club graph *)

(** C5: the graph [load_zachery] returns on the tutorial's data has 34
    nodes and 156 edges, and the club labels of nodes 0 and 33 are 0 and 1:
    [labels[[0, 33]]] is [tensor([0, 1])]. *)
Theorem load_zachery_facts {F : Type} (ages : list Z) (weights : list F) :
  ∃ (g : DGLGraph F) (labels : tensor F),
    load_zachery (tutorial_files ages weights) = Ok g
    ∧ number_of_nodes g = 34%nat
    ∧ number_of_edges g = 156%nat
    ∧ ndata g !! "club" = Some labels
    ∧ tensor_index labels [0; 33] = Ok (LongVec [0; 1]).
Proof.
  destruct (load_zachery (tutorial_files ages weights)) as [g|e] eqn:Hg;
    vm_compute in Hg; [| discriminate].
  injection Hg as <-.
  eexists _, _. split; [reflexivity |].
  split; [reflexivity |]. split; [reflexivity |].
  split; [vm_compute; reflexivity |]. vm_compute. reflexivity.
Qed.

(** The summary the second notebook prints after loading the graph. *)
Example load_zachery_summary :
  summarize <$> load_zachery IntKernels.zachery_files
  = Ok {| sum_num_nodes := 34; sum_num_edges := 156;
          ndata_schemes := <["club" := ([], Int64)]>
                             (<["club_onehot" := ([2%nat], Int64)]> ∅);
          edata_schemes := ∅ |}.
Proof. vm_compute. reflexivity. Qed.

(** ** The club encodings *)

Lemma bools_long_lookup (bs : list bool) (i : nat) (b : bool) :
  bs !! i = Some b → bools_long bs !! i = Some (if b then 1 else 0).
Proof. intros H. unfold bools_long. rewrite list_lookup_fmap, H. reflexivity. Qed.

Lemma bools_long_range (bs : list bool) (x : Z) :
  x ∈ bools_long bs → x = 0 ∨ x = 1.
Proof.
  unfold bools_long. rewrite list_elem_of_fmap.
  intros ([|] & -> & _); [right | left]; reflexivity.
Qed.

Lemma bools_long_nonneg (bs : list bool) :
  forallb (λ c, 0 <=? c) (bools_long bs) = true.
Proof.
  apply forallb_forall. intros x Hx. apply list_elem_of_In in Hx.
  apply bools_long_range in Hx. destruct Hx as [-> | ->]; reflexivity.
Qed.

(** On a tensor of zeros and ones that is not empty, [F.one_hot] infers one
    or two classes and succeeds. *)
Lemma one_hot_bools (bs : list bool) :
  bs ≠ [] →
  ∃ n, (n = 1%nat ∨ n = 2%nat)
       ∧ (∀ c, c ∈ bools_long bs → c < Z.of_nat n)
       ∧ one_hot (bools_long bs) = Ok (one_hot_row n <$> bools_long bs).
Proof.
  intros Hne.
  assert (Hv : bools_long bs ≠ []) by (destruct bs; [congruence | discriminate]).
  exists (Z.to_nat (max_list (bools_long bs) + 1)).
  assert (Hmax : max_list (bools_long bs) = 0 ∨ max_list (bools_long bs) = 1).
  { destruct (max_list_elem _ Hv) as [Hin | Hm1].
    - exact (bools_long_range _ _ Hin).
    - destruct (bools_long bs) as [|x v] eqn:E; [congruence |].
      assert (Hx : x ∈ bools_long bs) by (rewrite E; left).
      pose proof (bools_long_range _ _ Hx).
      rewrite <- E in Hm1. pose proof (max_list_ge _ _ Hx). lia. }
  split; [destruct Hmax as [-> | ->]; [left | right]; reflexivity |].
  split.
  - intros c Hc. pose proof (max_list_ge _ _ Hc). lia.
  - unfold one_hot. rewrite bools_long_nonneg.
    destruct (bools_long bs); [congruence | reflexivity].
Qed.

(** C7: for every list of Club strings and every node [i], the categorical
    encoding is 1 exactly when the node's string is ['Officer'] and 0
    otherwise, [F.one_hot] succeeds on the encoding, and the one-hot row of
    the node has its maximum at the node's class and exactly one entry
    equal to 1. *)
Theorem club_one_hot_roundtrip {F : Type} (clubs : list string) (i : nat)
    (s : string) :
  clubs !! i = Some s →
  ∃ (c : Z) (club_onehot : list (list Z)) (row : list Z),
    club_encoding (F:=F) (StrCol clubs) !! i = Some c
    ∧ (c = 1 ↔ s = "Officer"%string)
    ∧ (c = 0 ↔ s ≠ "Officer"%string)
    ∧ one_hot (club_encoding (F:=F) (StrCol clubs)) = Ok club_onehot
    ∧ club_onehot !! i = Some row
    ∧ argmax_row Z.gtb row = Ok c
    ∧ length (filter (λ x, x = 1) row) = 1%nat.
Proof.
  intros Hi. unfold club_encoding. simpl.
  set (bs := (λ s0, String.eqb s0 "Officer") <$> clubs).
  assert (Hb : bs !! i = Some (String.eqb s "Officer")).
  { unfold bs. rewrite list_lookup_fmap, Hi. reflexivity. }
  assert (Hne : bs ≠ []) by (intros E; rewrite E in Hb; discriminate).
  destruct (one_hot_bools bs Hne) as (n & Hn & Hlt & Hoh).
  pose proof (bools_long_lookup _ _ _ Hb) as Hc.
  exists (if String.eqb s "Officer" then 1 else 0),
         (one_hot_row n <$> bools_long bs),
         (one_hot_row n (if String.eqb s "Officer" then 1 else 0)).
  split; [exact Hc |].
  split; [destruct (String.eqb_spec s "Officer"); split; (congruence || lia) |].
  split; [destruct (String.eqb_spec s "Officer"); split; (congruence || lia) |].
  split; [exact Hoh |].
  split; [rewrite list_lookup_fmap, Hc; reflexivity |].
  assert (Hcn : (if String.eqb s "Officer" then 1 else 0) < Z.of_nat n).
  { apply Hlt. eapply list_elem_of_lookup_2, Hc. }
  destruct (String.eqb s "Officer"), Hn as [-> | ->];
    first [lia | split; reflexivity].
Qed.

Lemma club_one_hot_roundtrip_witness :
  ∃ (c : Z) (club_onehot : list (list Z)) (row : list Z),
    club_encoding (F:=Z) (StrCol ["Mr. Hi"; "Officer"; "officer"]) !! 1%nat = Some c
    ∧ (c = 1 ↔ "Officer"%string = "Officer"%string)
    ∧ (c = 0 ↔ "Officer"%string ≠ "Officer"%string)
    ∧ one_hot (club_encoding (F:=Z) (StrCol ["Mr. Hi"; "Officer"; "officer"]))
      = Ok club_onehot
    ∧ club_onehot !! 1%nat = Some row
    ∧ argmax_row Z.gtb row = Ok c
    ∧ length (filter (λ x, x = 1) row) = 1%nat.
Proof.
  apply (club_one_hot_roundtrip (F:=Z) ["Mr. Hi"; "Officer"; "officer"]%string 1).
  reflexivity.
Defined.

(** The encoding of three members, and what [F.one_hot] raises when there
    is no member at all. *)
Example club_encoding_example :
  one_hot (club_encoding (F:=Z) (StrCol ["Mr. Hi"; "Officer"; "officer"]))
  = Ok [[1; 0]; [0; 1]; [1; 0]].
Proof. reflexivity. Qed.

Example one_hot_all_mr_hi :
  one_hot (club_encoding (F:=Z) (StrCol ["Mr. Hi"; "Mr. Hi"])) = Ok [[1]; [1]].
Proof. reflexivity. Qed.

Example one_hot_empty :
  one_hot (club_encoding (F:=Z) (StrCol [])) = Raise RuntimeError.
Proof. reflexivity. Qed.

(** ** Features do not touch the structure *)

Section Frame.
Context {F : Type} `{!FloatOps F}.

Lemma same_structure_refl (g : DGLGraph F) : same_structure g g.
Proof. repeat split. Qed.

Lemma same_structure_trans (g1 g2 g3 : DGLGraph F) :
  same_structure g1 g2 → same_structure g2 g3 → same_structure g1 g3.
Proof.
  intros (?&?&?&?) (?&?&?&?). repeat split; congruence.
Qed.

Lemma set_ndata_frame k t (g g' : DGLGraph F) :
  set_ndata k t g = Ok g' →
  same_structure g g' ∧ ndata g' = <[k := t]> (ndata g) ∧ edata g' = edata g.
Proof.
  unfold set_ndata. case_decide; [| discriminate].
  intros [= <-]. repeat split.
Qed.

Lemma set_edata_frame k t (g g' : DGLGraph F) :
  set_edata k t g = Ok g' →
  same_structure g g' ∧ ndata g' = ndata g ∧ edata g' = <[k := t]> (edata g).
Proof.
  unfold set_edata. case_decide; [| discriminate].
  intros [= <-]. repeat split.
Qed.

Lemma del_ndata_frame k (g g' : DGLGraph F) :
  del_ndata k g = Ok g' →
  same_structure g g' ∧ ndata g' = delete k (ndata g) ∧ edata g' = edata g.
Proof.
  unfold del_ndata. destruct (ndata g !! k); [| discriminate].
  intros [= <-]. repeat split.
Qed.

Lemma ndata_update_aux_frame items (g : DGLGraph F) :
  same_structure g (ndata_update_stmt_aux items g).1.
Proof.
  revert g. induction items as [|[k t] items IH]; intros g; simpl.
  - apply same_structure_refl.
  - destruct (set_ndata k t g) as [g1|e] eqn:Hset; simpl.
    + apply set_ndata_frame in Hset as (Hs & _).
      eapply same_structure_trans; [exact Hs | apply IH].
    + apply same_structure_refl.
Qed.

(** A statement built with [update_graph] rebinds [g] to what the method
    returned, or leaves the namespace alone when the method raised. *)
Lemma update_graph_cases f (st : state F) (g : DGLGraph F) :
  get_graph "g" (vars st) = Ok g →
  (∃ g', f (vars st) g = Ok g'
         ∧ update_graph "g" f st
           = ({| vars := <["g" := VGraph g']> (vars st); out := out st |}, None))
  ∨ (∃ e, f (vars st) g = Raise e ∧ update_graph "g" f st = (st, Some e)).
Proof.
  intros Hg. unfold update_graph, assign. rewrite Hg. simpl.
  destruct (f (vars st) g) as [g'|e]; simpl; [left | right]; eauto.
Qed.

Lemma update_graph_frame f (st : state F) (g : DGLGraph F) :
  get_graph "g" (vars st) = Ok g →
  (∀ g', f (vars st) g = Ok g' → same_structure g g') →
  ∃ g', get_graph "g" (vars (update_graph "g" f st).1) = Ok g'
        ∧ same_structure g g'.
Proof.
  intros Hg Hf.
  destruct (update_graph_cases f st g Hg) as [(g' & Hfg & ->) | (e & _ & ->)]; simpl.
  - exists g'. split; [apply get_graph_insert | auto].
  - exists g. split; [exact Hg | apply same_structure_refl].
Qed.

Lemma stmt_update_club_frame (st : state F) (g : DGLGraph F) :
  get_graph "g" (vars st) = Ok g →
  ∃ g', get_graph "g" (vars (stmt_update_club st).1) = Ok g'
        ∧ same_structure g g'.
Proof.
  intros Hg. unfold stmt_update_club, ndata_update_stmt.
  match goal with |- context [mapM ?f ?l] => generalize (mapM f l) end.
  intros [items|e]; rewrite Hg; simpl.
  - pose proof (ndata_update_aux_frame items g) as Hs.
    destruct (ndata_update_stmt_aux items g) as [g' err]. simpl in *.
    exists g'. split; [apply get_graph_insert | exact Hs].
  - exists g. split; [exact Hg | apply same_structure_refl].
Qed.

End Frame.

(** C8: whatever the namespace, each of the four feature statements of the
    notebook (setting [g.ndata['age']], [g.ndata.update] with [club] and
    [club_onehot], [del g.ndata['age']], setting [g.edata['weight']]),
    whether it succeeds or raises, leaves [g] bound to a graph with the
    same nodes and the same edges; and when [del g.ndata['age']] succeeds
    the node features are the former ones without the key [age]: [club],
    [club_onehot] and every other key keep their tensors, and the edge
    features are untouched. *)
Theorem feature_statements_frame {F : Type} `{!FloatOps F}
    (st : state F) (g : DGLGraph F) :
  get_graph "g" (vars st) = Ok g →
  (∀ s : stmt F,
      s ∈ [stmt_set_age; stmt_update_club; stmt_del_age; stmt_set_weight] →
        ∃ g', get_graph "g" (vars (s st).1) = Ok g'
              ∧ nodes g' = nodes g ∧ edges g' = edges g)
  ∧ (∀ st', stmt_del_age st = (st', None) →
        ∃ g', get_graph "g" (vars st') = Ok g'
              ∧ ndata g' = delete "age" (ndata g)
              ∧ ndata g' !! "age" = None
              ∧ ndata g' !! "club" = ndata g !! "club"
              ∧ ndata g' !! "club_onehot" = ndata g !! "club_onehot"
              ∧ (∀ k, k ≠ "age"%string → ndata g' !! k = ndata g !! k)
              ∧ edata g' = edata g).
Proof.
  intros Hg. split.
  - intros s Hs.
    assert (H : ∃ g', get_graph "g" (vars (s st).1) = Ok g' ∧ same_structure g g').
    { rewrite !elem_of_cons in Hs.
      destruct Hs as [-> | [-> | [-> | [-> | Hs]]]]; [| | | | inversion Hs].
      - apply update_graph_frame; [exact Hg |].
        intros g'. destruct (get_tensor "age" (vars st)); [simpl | discriminate].
        intros H. apply set_ndata_frame in H. tauto.
      - apply stmt_update_club_frame, Hg.
      - apply update_graph_frame; [exact Hg |].
        intros g' H. apply del_ndata_frame in H. tauto.
      - apply update_graph_frame; [exact Hg |].
        intros g'. destruct (get_tensor "edge_weight" (vars st)); [simpl | discriminate].
        intros H. apply set_edata_frame in H. tauto. }
    destruct H as (g' & Hg' & Hn & He & _). eauto.
  - intros st' Hdel. unfold stmt_del_age in Hdel.
    destruct (update_graph_cases (λ _ g0, del_ndata "age" g0) st g Hg)
      as [(g' & Hfg & Heq) | (e & _ & Heq)]; rewrite Heq in Hdel; [| discriminate].
    injection Hdel as <-. simpl.
    apply del_ndata_frame in Hfg as (_ & Hnd & Hed).
    exists g'. split; [apply get_graph_insert |]. rewrite Hnd.
    split; [reflexivity |]. split; [apply lookup_delete_eq |].
    split; [apply lookup_delete_ne; discriminate |].
    split; [apply lookup_delete_ne; discriminate |].
    split; [intros k Hk; apply lookup_delete_ne; congruence | exact Hed].
Qed.

Lemma feature_statements_frame_witness :
  ∃ g' : DGLGraph Z,
    get_graph "g" (vars (stmt_del_age IntKernels.tiny_state).1) = Ok g'
    ∧ nodes g' = [0; 1] ∧ edges g' = [(0, 1)].
Proof.
  destruct (feature_statements_frame IntKernels.tiny_state IntKernels.tiny_graph
              eq_refl) as [Hframe _].
  apply (Hframe stmt_del_age). right. right. left.
Defined.

Example del_age_keeps_club :
  ndata <$> (get_graph "g" (vars (stmt_del_age IntKernels.tiny_state).1))
  = Ok (<["club" := LongVec [0; 1]]>
          (<["club_onehot" := LongMat [[1; 0]; [0; 1]]]> ∅)).
Proof. vm_compute. reflexivity. Qed.

(** ** Exceptions *)

Section Failures.
Context {F : Type} `{!FloatOps F}.










(** *** Before the graph is built *)








(** *** After the graph is built *)







(** *** Every library call *)




End Failures.




(** ** The model *)

Section ModelFacts.
Context {F : Type} `{!FloatOps F} `{!Kernels (F:=F)}.

(** C1: the forward pass is the second convolution applied to the ReLU of
    the first convolution, with nothing applied after the second; the two
    layers of the notebook's network are mean-aggregating SAGEConv layers
    of dimensions 5 to 16 and 16 to 2. *)
Theorem GraphSAGE_forward_composition (self : GraphSAGE) (g : DGLGraph F)
    (x : list (list F)) :
  GraphSAGE_forward self g x
  = SAGEConv_call (conv2 self) g (relu (SAGEConv_call (conv1 self) g x))
  ∧ relu (SAGEConv_call (conv1 self) g x)
    = map frelu <$> SAGEConv_call (conv1 self) g x
  ∧ conv1 (GraphSAGE_new 5 16 2) = SAGEConv_new 5 16 "mean"
  ∧ conv2 (GraphSAGE_new 5 16 2) = SAGEConv_new 16 2 "mean".
Proof. repeat split. Qed.

(** The logits of a small graph under the integer kernels: negative
    entries pass through, since nothing follows the second layer. *)
Example forward_keeps_negative_logits :
  GraphSAGE_forward (GraphSAGE_new 5 16 2) IntKernels.tiny_graph [[1; 2]; [3; 4]]
  = [[-477; 481]; [-448; 452]].
Proof. vm_compute. reflexivity. Qed.

(** ** The loss *)

Lemma index_one_ok {A} (l : list A) (i : Z) (a : A) :
  0 ≤ i → l !! Z.to_nat i = Some a → index_one l i = Ok a.
Proof.
  intros Hi Hl. unfold index_one.
  pose proof (lookup_lt_Some _ _ _ Hl) as Hlt.
  replace (i <? 0) with false by (symmetry; apply Z.ltb_ge; lia).
  replace (0 <=? i) with true by (symmetry; apply Z.leb_le; lia).
  replace (i <? Z.of_nat (length l)) with true by (symmetry; apply Z.ltb_lt; lia).
  simpl. rewrite Hl. reflexivity.
Qed.

Lemma index_one_inv {A} (l : list A) (i : Z) (a : A) :
  0 ≤ i → index_one l i = Ok a → l !! Z.to_nat i = Some a.
Proof.
  intros Hi. unfold index_one.
  replace (i <? 0) with false by (symmetry; apply Z.ltb_ge; lia).
  destruct ((0 <=? i) && (i <? Z.of_nat (length l))); [| discriminate].
  destruct (l !! Z.to_nat i); [congruence | discriminate].
Qed.

Lemma index_labeled_ok {A} (l : list A) (a0 a33 : A) :
  l !! 0%nat = Some a0 → l !! 33%nat = Some a33 →
  index_rows l labeled_nodes = Ok [a0; a33].
Proof.
  intros H0 H33. unfold index_rows, labeled_nodes. simpl.
  rewrite (index_one_ok l 0 a0), (index_one_ok l 33 a33); [reflexivity | lia | | lia |];
    assumption.
Qed.

Lemma index_labeled_inv {A} (l sel : list A) :
  index_rows l labeled_nodes = Ok sel →
  ∃ a0 a33, l !! 0%nat = Some a0 ∧ l !! 33%nat = Some a33 ∧ sel = [a0; a33].
Proof.
  unfold index_rows, labeled_nodes. simpl.
  destruct (index_one l 0) as [a0|] eqn:H0; [simpl | discriminate].
  destruct (index_one l 33) as [a33|] eqn:H33; [simpl | discriminate].
  intros [= <-]. exists a0, a33.
  apply index_one_inv in H0; [| lia]. apply index_one_inv in H33; [| lia].
  repeat split; assumption.
Qed.

(** The loss reads rows 0 and 33 of the logits and of the labels, and
    nothing else. *)
Lemma F_nll_loss_pair (p0 p33 : list F) (l0 l33 : Z) :
  F_nll_loss [p0; p33] [l0; l33]
  = if target_in_bounds p0 l0 && target_in_bounds p33 l33
    then Ok (nll_loss [p0; p33] [l0; l33]) else Raise IndexError.
Proof.
  unfold F_nll_loss. simpl. rewrite andb_true_r. reflexivity.
Qed.

Lemma training_loss_labeled (lg : list (list F)) (lv : list Z)
    (r0 r33 : list F) (l0 l33 : Z) :
  lg !! 0%nat = Some r0 → lg !! 33%nat = Some r33 →
  lv !! 0%nat = Some l0 → lv !! 33%nat = Some l33 →
  target_in_bounds (log_softmax_row r0) l0 = true →
  target_in_bounds (log_softmax_row r33) l33 = true →
  training_loss lg (LongVec lv)
  = Ok (nll_loss [log_softmax_row r0; log_softmax_row r33] [l0; l33]).
Proof.
  intros Hr0 Hr33 Hl0 Hl33 Hb0 Hb33. unfold training_loss.
  rewrite (index_labeled_ok (log_softmax lg) (log_softmax_row r0) (log_softmax_row r33)).
  - simpl. rewrite (index_labeled_ok lv l0 l33) by assumption. simpl.
    rewrite F_nll_loss_pair, Hb0, Hb33. reflexivity.
  - unfold log_softmax. rewrite list_lookup_fmap, Hr0. reflexivity.
  - unfold log_softmax. rewrite list_lookup_fmap, Hr33. reflexivity.
Qed.

(** A label of a labeled node that is no class of the network makes the
    loss raise. *)
Lemma training_loss_out_of_bounds (lg : list (list F)) (lv : list Z)
    (r0 r33 : list F) (l0 l33 : Z) :
  lg !! 0%nat = Some r0 → lg !! 33%nat = Some r33 →
  lv !! 0%nat = Some l0 → lv !! 33%nat = Some l33 →
  target_in_bounds (log_softmax_row r0) l0
  && target_in_bounds (log_softmax_row r33) l33 = false →
  training_loss lg (LongVec lv) = Raise IndexError.
Proof.
  intros Hr0 Hr33 Hl0 Hl33 Hb. unfold training_loss.
  rewrite (index_labeled_ok (log_softmax lg) (log_softmax_row r0) (log_softmax_row r33)).
  - simpl. rewrite (index_labeled_ok lv l0 l33) by assumption. simpl.
    rewrite F_nll_loss_pair, Hb. reflexivity.
  - unfold log_softmax. rewrite list_lookup_fmap, Hr0. reflexivity.
  - unfold log_softmax. rewrite list_lookup_fmap, Hr33. reflexivity.
Qed.

Lemma training_loss_inv (lg : list (list F)) (labels : tensor F) (loss : F) :
  training_loss lg labels = Ok loss →
  ∃ lv r0 r33 l0 l33,
    labels = LongVec lv
    ∧ lg !! 0%nat = Some r0 ∧ lg !! 33%nat = Some r33
    ∧ lv !! 0%nat = Some l0 ∧ lv !! 33%nat = Some l33
    ∧ loss = nll_loss [log_softmax_row r0; log_softmax_row r33] [l0; l33]
    ∧ target_in_bounds (log_softmax_row r0) l0 = true
    ∧ target_in_bounds (log_softmax_row r33) l33 = true.
Proof.
  unfold training_loss. intros H.
  apply bind_ok in H as (sel & Hsel & H).
  apply bind_ok in H as (lab & Hlab & H).
  apply bind_ok in H as (target & Htarget & H).
  apply index_labeled_inv in Hsel as (p0 & p33 & Hp0 & Hp33 & ->).
  unfold log_softmax in Hp0, Hp33. rewrite list_lookup_fmap in Hp0, Hp33.
  destruct (lg !! 0%nat) as [r0|] eqn:Hr0; [| discriminate].
  destruct (lg !! 33%nat) as [r33|] eqn:Hr33; [| discriminate].
  injection Hp0 as <-. injection Hp33 as <-.
  destruct lab as [tv| | |]; try discriminate. injection Htarget as <-.
  destruct labels as [lv|m|v|m]; simpl in Hlab;
    match type of Hlab with
    | context [index_rows ?l ?i] => destruct (index_rows l i) as [x|] eqn:Hx
    end; try discriminate.
  injection Hlab as <-.
  apply index_labeled_inv in Hx as (l0 & l33 & Hl0 & Hl33 & ->).
  rewrite F_nll_loss_pair in H.
  destruct (target_in_bounds (log_softmax_row r0) l0) eqn:Hb0; [| discriminate].
  destruct (target_in_bounds (log_softmax_row r33) l33) eqn:Hb33; [| discriminate].
  injection H as <-.
  exists lv, r0, r33, l0, l33. repeat split; assumption.
Qed.

Lemma epoch_inv (g : DGLGraph F) (labels : tensor F) (e : nat)
    (st st' : train_state) :
  epoch g labels e st = Ok st' →
  let lg := GraphSAGE_forward (net (mods st)) g (inputs (mods st)) in
  let grads :=
    autograd (λ m, training_loss (GraphSAGE_forward (net m) g (inputs m)) labels)
             (mods st) in
  ∃ loss, training_loss lg labels = Ok loss
          ∧ mods st' = (Adam_step (optimizer st) grads (mods st)).2
          ∧ optimizer st' = (Adam_step (optimizer st) grads (mods st)).1
          ∧ all_logits st' = all_logits st ++ [lg]
          ∧ logits st' = Some lg
          ∧ losses st' = if (e mod 5 =? 0)%nat then losses st ++ [(e, loss)]
                         else losses st.
Proof.
  unfold epoch. intros H. apply bind_ok in H as (loss & Hloss & H).
  destruct (Adam_step _ _ _) as [o' m']. injection H as <-.
  exists loss. simpl. repeat split. exact Hloss.
Qed.

(** C2: in every epoch that completes, the loss is [F.nll_loss] of the
    log-softmax rows of nodes 0 and 33 and the labels of nodes 0 and 33;
    any other logits and labels with the same rows 0 and 33 give the same
    loss, so the other 32 nodes do not enter it. *)
Theorem epoch_loss_labeled_only (g : DGLGraph F) (labels : tensor F) (e : nat)
    (st st' : train_state) :
  epoch g labels e st = Ok st' →
  ∃ (lg : list (list F)) (lv : list Z) (r0 r33 : list F) (l0 l33 : Z) (loss : F),
    lg = GraphSAGE_forward (net (mods st)) g (inputs (mods st))
    ∧ logits st' = Some lg
    ∧ labels = LongVec lv
    ∧ lg !! 0%nat = Some r0 ∧ lg !! 33%nat = Some r33
    ∧ lv !! 0%nat = Some l0 ∧ lv !! 33%nat = Some l33
    ∧ training_loss lg labels = Ok loss
    ∧ loss = nll_loss (log_softmax_row <$> [r0; r33]) [l0; l33]
    ∧ ((e mod 5 = 0)%nat → last (losses st') = Some (e, loss))
    ∧ ∀ (lg' : list (list F)) (lv' : list Z),
        lg' !! 0%nat = Some r0 → lg' !! 33%nat = Some r33 →
        lv' !! 0%nat = Some l0 → lv' !! 33%nat = Some l33 →
        training_loss lg' (LongVec lv') = Ok loss.
Proof.
  intros H. apply epoch_inv in H as (loss & Hloss & _ & _ & _ & Hlg & Hlosses).
  destruct (training_loss_inv _ _ _ Hloss)
    as (lv & r0 & r33 & l0 & l33 & -> & Hr0 & Hr33 & Hl0 & Hl33 & -> & Hb0 & Hb33).
  eexists _, lv, r0, r33, l0, l33, _.
  split; [reflexivity |]. split; [exact Hlg |]. split; [reflexivity |].
  do 4 (split; [assumption |]). split; [exact Hloss |]. split; [reflexivity |].
  split.
  - intros He. rewrite Hlosses.
    replace (e mod 5 =? 0)%nat with true by (symmetry; apply Nat.eqb_eq; exact He).
    apply last_snoc.
  - intros lg' lv' ? ? ? ?. apply training_loss_labeled; assumption.
Qed.

End ModelFacts.

Lemma epoch_loss_labeled_only_witness :
  ∃ (st' : train_state) (lg : list (list Z)) (r0 r33 : list Z) (l0 l33 loss : Z),
    epoch IntKernels.zachery_graph IntKernels.zachery_labels 0
      IntKernels.zachery_start = Ok st'
    ∧ logits st' = Some lg
    ∧ lg !! 0%nat = Some r0 ∧ lg !! 33%nat = Some r33
    ∧ loss = nll_loss (log_softmax_row <$> [r0; r33]) [l0; l33].
Proof.
  destruct (is_ok_inv (epoch IntKernels.zachery_graph IntKernels.zachery_labels 0
                         IntKernels.zachery_start)) as [st' Hepoch];
    [vm_compute; reflexivity |].
  destruct (epoch_loss_labeled_only _ _ _ _ _ Hepoch)
    as (lg & lv & r0 & r33 & l0 & l33 & loss
        & _ & Hlg & _ & Hr0 & Hr33 & _ & _ & _ & Hloss & _).
  exists st', lg, r0, r33, l0, l33, loss.
  split; [exact Hepoch |]. split; [exact Hlg |].
  split; [exact Hr0 |]. split; [exact Hr33 |]. exact Hloss.
Defined.

(** ** The training loop *)

Section TrainingFacts.
Context {F : Type} `{!FloatOps F} `{!Kernels (F:=F)}.

Lemma for_range_app {S} (body : nat → S → result S) (es1 es2 : list nat) (st : S) :
  for_range body (es1 ++ es2) st = for_range body es1 st ≫= for_range body es2.
Proof.
  revert st. induction es1 as [|e es1 IH]; intros st; simpl; [reflexivity |].
  destruct (body e st) as [st1|err]; simpl; [apply IH | reflexivity].
Qed.

Lemma for_range_invariant {S} (body : nat → S → result S) (P : S → Prop)
    (es : list nat) (st st' : S) :
  (∀ e s s', P s → body e s = Ok s' → P s') →
  P st → for_range body es st = Ok st' → P st'.
Proof.
  intros Hstep. revert st. induction es as [|e es IH]; intros st HP; simpl.
  - intros [= <-]. exact HP.
  - destruct (body e st) as [st1|err] eqn:Hb; simpl; [| discriminate].
    apply IH. eapply Hstep; eassumption.
Qed.

Lemma for_range_total {S} (body : nat → S → result S) (es : list nat) (st : S) :
  (∀ e s, ∃ s', body e s = Ok s') → ∃ st', for_range body es st = Ok st'.
Proof.
  intros Htot. revert st. induction es as [|e es IH]; intros st; simpl; [eauto |].
  destruct (Htot e st) as [st1 ->]. simpl. apply IH.
Qed.

(** The loop only ever appends to [all_logits], one tensor per epoch, and
    prints a line for the epochs divisible by five. *)
Lemma for_range_epoch_log (g : DGLGraph F) (labels : tensor F) (es : list nat)
    (st st' : train_state) :
  for_range (epoch g labels) es st = Ok st' →
  all_logits st `prefix_of` all_logits st'
  ∧ length (all_logits st') = (length (all_logits st) + length es)%nat
  ∧ (es ≠ [] → logits st' = last (all_logits st'))
  ∧ fst <$> losses st' = (fst <$> losses st) ++ filter (λ e, e mod 5 = 0)%nat es.
Proof.
  revert st. induction es as [|e es IH]; intros st; simpl.
  - intros [= <-]. split; [reflexivity |]. split; [lia |].
    split; [congruence |]. rewrite app_nil_r. reflexivity.
  - destruct (epoch g labels e st) as [st1|err] eqn:He; simpl; [| discriminate].
    intros Hrest. apply epoch_inv in He as (loss & _ & _ & _ & Hall & Hlg & Hlosses).
    destruct (IH _ Hrest) as (Hpre & Hlen & Hlast & Hprint).
    split; [etrans; [| exact Hpre]; rewrite Hall; apply prefix_app_r; reflexivity |].
    split; [rewrite Hlen, Hall, length_app; simpl; lia |].
    split.
    + intros _. destruct es as [|e' es]; [| apply Hlast; discriminate].
      simpl in Hrest. injection Hrest as <-. rewrite Hlg, Hall, last_snoc. reflexivity.
    + rewrite Hprint, Hlosses. rewrite filter_cons.
      destruct (Nat.eqb_spec (e mod 5) 0) as [E | E]; case_decide; try contradiction.
      * rewrite fmap_app. simpl. rewrite <- app_assoc. reflexivity.
      * reflexivity.
Qed.

(** What a completed training run leaves behind. *)
Lemma train_trace (g : DGLGraph F) (labels : tensor F) (st : train_state) :
  train g = Ok (labels, st) →
  ∃ st0, setup g = Ok (labels, st0)
    ∧ for_range (epoch g labels) (range 100) st0 = Ok st
    ∧ length (all_logits st) = 100%nat
    ∧ logits st = last (all_logits st)
    ∧ fst <$> losses st = (λ k, 5 * k)%nat <$> seq 0 20
    ∧ ∀ e, (e < 100)%nat →
        ∃ st_e, for_range (epoch g labels) (range e) st0 = Ok st_e
          ∧ all_logits st !! e
            = Some (GraphSAGE_forward (net (mods st_e)) g (inputs (mods st_e))).
Proof.
  unfold train. intros H. apply bind_ok in H as ([labels0 st0] & Hsetup & H).
  apply bind_ok in H as (st1 & Hloop & H). injection H as <- <-.
  assert (Hinit : all_logits st0 = [] ∧ losses st0 = []).
  { unfold setup in Hsetup. apply bind_ok in Hsetup as (l & _ & Hsetup).
    apply bind_ok in Hsetup as (x & _ & Hsetup). injection Hsetup as _ <-.
    split; reflexivity. }
  destruct Hinit as [Hall0 Hlosses0].
  exists st0. split; [exact Hsetup |]. split; [exact Hloop |].
  destruct (for_range_epoch_log _ _ _ _ _ Hloop) as (_ & Hlen & Hlast & Hprint).
  split; [rewrite Hlen, Hall0; reflexivity |].
  split; [apply Hlast; discriminate |].
  split; [rewrite Hprint, Hlosses0; reflexivity |].
  intros e He.
  assert (Hsplit : range 100 = range e ++ e :: seq (S e) (99 - e)).
  { unfold range. replace 100%nat with (e + S (99 - e))%nat at 1 by lia.
    rewrite seq_app. reflexivity. }
  rewrite Hsplit, for_range_app in Hloop.
  apply bind_ok in Hloop as (st_e & Hpre & Hloop). simpl in Hloop.
  apply bind_ok in Hloop as (st_e1 & Hepoch & Hrest).
  exists st_e. split; [exact Hpre |].
  destruct (for_range_epoch_log _ _ _ _ _ Hpre) as (_ & Hlen_e & _).
  destruct (for_range_epoch_log _ _ _ _ _ Hrest) as (Hprefix & _).
  apply epoch_inv in Hepoch as (_ & _ & _ & _ & Hall & _).
  eapply prefix_lookup_Some; [| exact Hprefix].
  rewrite Hall, Hall0 in *. unfold range in Hlen_e. rewrite length_seq in Hlen_e.
  simpl in Hlen_e. rewrite <- Hlen_e, list_lookup_middle; reflexivity.
Qed.

Lemma write_param_out_feats (m : modules) (r : param_ref) (v : list (list F)) :
  out_feats (conv2 (net (write_param m r v))) = out_feats (conv2 (net m)).
Proof. destruct r; reflexivity. Qed.

Lemma adam_steps_out_feats rate refs sts grads (m : modules) :
  out_feats (conv2 (net (adam_steps rate refs sts grads m).2))
  = out_feats (conv2 (net m)).
Proof.
  revert sts m. induction refs as [|r refs IH]; intros [|s sts] m; simpl;
    try reflexivity.
  destruct (read_param m r) as [p|].
  - destruct (adam_step rate s p (grads r)) as [s' p'].
    specialize (IH sts (write_param m r p')).
    destruct (adam_steps rate refs sts grads (write_param m r p')) as [ss m'].
    simpl in *. rewrite IH. apply write_param_out_feats.
  - specialize (IH sts m).
    destruct (adam_steps rate refs sts grads m) as [ss m']. exact IH.
Qed.

Lemma epoch_out_feats (g : DGLGraph F) (labels : tensor F) (e : nat)
    (st st' : train_state) :
  epoch g labels e st = Ok st' →
  out_feats (conv2 (net (mods st'))) = out_feats (conv2 (net (mods st))).
Proof.
  intros H. apply epoch_inv in H as (_ & _ & -> & _).
  unfold Adam_step.
  match goal with
  | |- context [adam_steps ?a ?b ?c ?d ?m] =>
      pose proof (adam_steps_out_feats a b c d m) as Hdims;
      destruct (adam_steps a b c d m) as [ss m']
  end.
  exact Hdims.
Qed.

Lemma setup_out_feats (g : DGLGraph F) (labels : tensor F) (st0 : train_state) :
  setup g = Ok (labels, st0) → out_feats (conv2 (net (mods st0))) = 2%nat.
Proof.
  unfold setup. intros H. apply bind_ok in H as (l & _ & H).
  apply bind_ok in H as (x & _ & H). injection H as _ <-. reflexivity.
Qed.

Lemma for_range_total_inv {S} (body : nat → S → result S) (P : S → Prop)
    (es : list nat) (st : S) :
  (∀ e s, P s → ∃ s', body e s = Ok s' ∧ P s') →
  P st → ∃ st', for_range body es st = Ok st' ∧ P st'.
Proof.
  intros Htot. revert st. induction es as [|e es IH]; intros st HP; simpl; [eauto |].
  destruct (Htot e st HP) as (st1 & -> & HP1). simpl. apply IH, HP1.
Qed.

(** The logits have one row per node and one column per class of the
    second layer. *)
Lemma forward_shape (n : GraphSAGE) (g : DGLGraph F) (x : list (list F)) :
  SAGEConv_shapes →
  length (GraphSAGE_forward n g x) = number_of_nodes g
  ∧ Forall (λ row, length row = out_feats (conv2 n)) (GraphSAGE_forward n g x).
Proof. intros Hshape. unfold GraphSAGE_forward. apply Hshape. Qed.

Lemma target_in_bounds_class (row : list F) (l : Z) :
  0 ≤ l < Z.of_nat (length row) → target_in_bounds row l = true.
Proof.
  intros Hl. unfold target_in_bounds.
  replace (0 <=? l) with true by (symmetry; apply Z.leb_le; lia).
  replace (l <? Z.of_nat (length row)) with true by (symmetry; apply Z.ltb_lt; lia).
  apply orb_true_r.
Qed.

Lemma target_out_of_bounds (row : list F) (l : Z) :
  l ≠ -100 → l < 0 ∨ Z.of_nat (length row) ≤ l → target_in_bounds row l = false.
Proof.
  intros Hne Hl. unfold target_in_bounds.
  replace (l =? -100) with false by (symmetry; apply Z.eqb_neq; exact Hne).
  simpl. destruct Hl as [Hl | Hl].
  - replace (0 <=? l) with false by (symmetry; apply Z.leb_gt; lia). reflexivity.
  - replace (l <? Z.of_nat (length row)) with false by (symmetry; apply Z.ltb_ge; lia).
    apply andb_false_r.
Qed.

Lemma training_loss_total (lg : list (list F)) (lv : list Z) (l0 l33 : Z) :
  log_softmax_shapes →
  (34 ≤ length lg)%nat → Forall (λ row, length row = 2%nat) lg →
  lv !! 0%nat = Some l0 → lv !! 33%nat = Some l33 →
  0 ≤ l0 < 2 → 0 ≤ l33 < 2 →
  ∃ loss, training_loss lg (LongVec lv) = Ok loss.
Proof.
  intros Hsoft Hlg Hrows Hl0 Hl33 Hc0 Hc33.
  destruct (lookup_lt_is_Some_2 lg 0) as [r0 Hr0]; [lia |].
  destruct (lookup_lt_is_Some_2 lg 33) as [r33 Hr33]; [lia |].
  pose proof (proj1 (Forall_lookup _ _) Hrows _ _ Hr0) as Hlen0.
  pose proof (proj1 (Forall_lookup _ _) Hrows _ _ Hr33) as Hlen33.
  simpl in Hlen0, Hlen33.
  eexists. apply (training_loss_labeled lg lv r0 r33 l0 l33); try assumption.
  - apply target_in_bounds_class. rewrite Hsoft, Hlen0. lia.
  - apply target_in_bounds_class. rewrite Hsoft, Hlen33. lia.
Qed.

Lemma epoch_total (g : DGLGraph F) (lv : list Z) (l0 l33 : Z) (e : nat)
    (st : train_state) :
  SAGEConv_shapes → log_softmax_shapes → (34 ≤ number_of_nodes g)%nat →
  lv !! 0%nat = Some l0 → lv !! 33%nat = Some l33 →
  0 ≤ l0 < 2 → 0 ≤ l33 < 2 →
  out_feats (conv2 (net (mods st))) = 2%nat →
  ∃ st', epoch g (LongVec lv) e st = Ok st'
         ∧ out_feats (conv2 (net (mods st'))) = 2%nat.
Proof.
  intros Hshape Hsoft Hg Hl0 Hl33 Hc0 Hc33 Hdims.
  destruct (forward_shape (net (mods st)) g (inputs (mods st)) Hshape) as [Hlen Hrows].
  rewrite Hdims in Hrows.
  destruct (training_loss_total
              (GraphSAGE_forward (net (mods st)) g (inputs (mods st))) lv l0 l33)
    as [loss Hloss]; try assumption; [rewrite Hlen; exact Hg |].
  assert (Hok : ∃ st', epoch g (LongVec lv) e st = Ok st').
  { unfold epoch. rewrite Hloss. simpl. destruct (Adam_step _ _ _) as [o' m']. eauto. }
  destruct Hok as [st' Hst']. exists st'. split; [exact Hst' |].
  rewrite (epoch_out_feats _ _ _ _ _ Hst'). exact Hdims.
Qed.

(** An out-of-range label of node 0 or node 33 makes every epoch raise. *)
Lemma epoch_out_of_bounds (g : DGLGraph F) (lv : list Z) (l0 l33 : Z) (e : nat)
    (st : train_state) :
  SAGEConv_shapes → log_softmax_shapes → (34 ≤ number_of_nodes g)%nat →
  lv !! 0%nat = Some l0 → lv !! 33%nat = Some l33 →
  (l0 ≠ -100 ∧ (l0 < 0 ∨ 2 ≤ l0)) ∨ (l33 ≠ -100 ∧ (l33 < 0 ∨ 2 ≤ l33)) →
  out_feats (conv2 (net (mods st))) = 2%nat →
  epoch g (LongVec lv) e st = Raise IndexError.
Proof.
  intros Hshape Hsoft Hg Hl0 Hl33 Hout Hdims.
  destruct (forward_shape (net (mods st)) g (inputs (mods st)) Hshape) as [Hlen Hrows].
  rewrite Hdims in Hrows.
  set (lg := GraphSAGE_forward (net (mods st)) g (inputs (mods st))) in *.
  destruct (lookup_lt_is_Some_2 lg 0) as [r0 Hr0]; [lia |].
  destruct (lookup_lt_is_Some_2 lg 33) as [r33 Hr33]; [lia |].
  pose proof (proj1 (Forall_lookup _ _) Hrows _ _ Hr0) as Hlen0.
  pose proof (proj1 (Forall_lookup _ _) Hrows _ _ Hr33) as Hlen33.
  simpl in Hlen0, Hlen33.
  unfold epoch. fold lg.
  rewrite (training_loss_out_of_bounds lg lv r0 r33 l0 l33); try assumption;
    [reflexivity |].
  destruct Hout as [[Hne Hl] | [Hne Hl]].
  - rewrite (target_out_of_bounds (log_softmax_row r0) l0 Hne); [reflexivity |].
    rewrite Hsoft, Hlen0. lia.
  - rewrite (target_out_of_bounds (log_softmax_row r33) l33 Hne); [apply andb_false_r |].
    rewrite Hsoft, Hlen33. lia.
Qed.

Lemma setup_total (g : DGLGraph F) (lv : list Z) :
  ndata g !! "club" = Some (LongVec lv) → (34 ≤ length lv)%nat →
  ∃ st, setup g = Ok (LongVec lv, st).
Proof.
  intros Hclub Hlv. unfold setup. rewrite Hclub. simpl.
  destruct (lookup_lt_is_Some_2 lv 0) as [l0 Hl0]; [lia |].
  destruct (lookup_lt_is_Some_2 lv 33) as [l33 Hl33]; [lia |].
  rewrite (index_labeled_ok lv l0 l33) by assumption. simpl. eauto.
Qed.

Lemma train_total (g : DGLGraph F) (lv : list Z) (l0 l33 : Z) :
  SAGEConv_shapes → log_softmax_shapes → (34 ≤ number_of_nodes g)%nat →
  ndata g !! "club" = Some (LongVec lv) →
  lv !! 0%nat = Some l0 → lv !! 33%nat = Some l33 →
  0 ≤ l0 < 2 → 0 ≤ l33 < 2 →
  ∃ st, train g = Ok (LongVec lv, st).
Proof.
  intros Hshape Hsoft Hg Hclub Hl0 Hl33 Hc0 Hc33. unfold train.
  pose proof (lookup_lt_Some _ _ _ Hl33) as Hlv.
  destruct (setup_total g lv Hclub) as [st0 Hsetup]; [lia |].
  rewrite Hsetup.
  unfold mbind, result_bind. cbv beta iota.
  destruct (for_range_total_inv (epoch g (LongVec lv))
              (λ s, out_feats (conv2 (net (mods s))) = 2%nat) (range 100) st0)
    as (st & -> & _).
  - intros e s Hs. apply (epoch_total g lv l0 l33); assumption.
  - eapply setup_out_feats, Hsetup.
  - eauto.
Qed.

Lemma train_out_of_bounds (g : DGLGraph F) (lv : list Z) (l0 l33 : Z) :
  SAGEConv_shapes → log_softmax_shapes → (34 ≤ number_of_nodes g)%nat →
  ndata g !! "club" = Some (LongVec lv) →
  lv !! 0%nat = Some l0 → lv !! 33%nat = Some l33 →
  (l0 ≠ -100 ∧ (l0 < 0 ∨ 2 ≤ l0)) ∨ (l33 ≠ -100 ∧ (l33 < 0 ∨ 2 ≤ l33)) →
  train g = Raise IndexError.
Proof.
  intros Hshape Hsoft Hg Hclub Hl0 Hl33 Hout. unfold train.
  pose proof (lookup_lt_Some _ _ _ Hl33) as Hlv.
  destruct (setup_total g lv Hclub) as [st0 Hsetup]; [lia |].
  rewrite Hsetup.
  unfold mbind at 1, result_bind at 1. cbv beta iota.
  change (range 100) with (0%nat :: seq 1 99). simpl.
  rewrite (epoch_out_of_bounds g lv l0 l33); try assumption; [reflexivity |].
  eapply setup_out_feats, Hsetup.
Qed.

(** C3: the training loop runs the epochs 0 to 99 in order and nothing
    else.  A run that completes has appended exactly one logits tensor per
    epoch, so [all_logits] has length 100 and its entry [e] is the forward
    pass of the parameters reached after [e] epochs, the variable [logits]
    is the last of them, and a line was printed for the epochs 0, 5, ..,
    95.  There is no handler: an epoch that raises ends the run with its
    exception, as happens in epoch 0 when the label of node 0 or of node
    33 is not one of the two classes ([F.nll_loss] raises [IndexError]).
    With layers that return one row per node and keep the shapes, a graph
    of at least 34 nodes and labels 0 or 1 for the nodes 0 and 33, the run
    does complete. *)
Theorem training_loop_100_epochs (g : DGLGraph F) :
  (∀ labels st, train g = Ok (labels, st) →
     ∃ st0, setup g = Ok (labels, st0)
       ∧ for_range (epoch g labels) (seq 0 100) st0 = Ok st
       ∧ length (all_logits st) = 100%nat
       ∧ logits st = last (all_logits st)
       ∧ fst <$> losses st = (λ k, 5 * k)%nat <$> seq 0 20
       ∧ ∀ e, (e < 100)%nat →
           ∃ st_e, for_range (epoch g labels) (seq 0 e) st0 = Ok st_e
             ∧ all_logits st !! e
               = Some (GraphSAGE_forward (net (mods st_e)) g (inputs (mods st_e))))
  ∧ (∀ labels st0 k st_k err,
       setup g = Ok (labels, st0) → (k < 100)%nat →
       for_range (epoch g labels) (seq 0 k) st0 = Ok st_k →
       epoch g labels k st_k = Raise err →
       train g = Raise err)
  ∧ (∀ lv l0 l33,
       SAGEConv_shapes → log_softmax_shapes → (34 ≤ number_of_nodes g)%nat →
       ndata g !! "club" = Some (LongVec lv) →
       lv !! 0%nat = Some l0 → lv !! 33%nat = Some l33 →
       (0 ≤ l0 < 2 → 0 ≤ l33 < 2 → ∃ st, train g = Ok (LongVec lv, st))
       ∧ ((l0 ≠ -100 ∧ (l0 < 0 ∨ 2 ≤ l0)) ∨ (l33 ≠ -100 ∧ (l33 < 0 ∨ 2 ≤ l33)) →
          train g = Raise IndexError)).
Proof.
  split; [| split].
  - intros labels st H. exact (train_trace g labels st H).
  - intros labels st0 k st_k err Hsetup Hk Hpre Hepoch.
    unfold train. rewrite Hsetup. unfold mbind at 1, result_bind at 1. cbv beta iota.
    assert (Hsplit : range 100 = seq 0 k ++ k :: seq (S k) (99 - k)).
    { unfold range. replace 100%nat with (k + S (99 - k))%nat at 1 by lia.
      rewrite seq_app. reflexivity. }
    rewrite Hsplit, for_range_app, Hpre. simpl. rewrite Hepoch. reflexivity.
  - intros lv l0 l33 Hshape Hsoft Hg Hclub Hl0 Hl33. split.
    + intros Hc0 Hc33. apply (train_total g lv l0 l33); assumption.
    + intros Hout. apply (train_out_of_bounds g lv l0 l33); assumption.
Qed.

End TrainingFacts.

(** The integer layer returns one row per node, with [out_feats] entries. *)
Lemma mean_conv_shapes : SAGEConv_shapes (F:=Z).
Proof.
  intros c g x. simpl. unfold IntKernels.mean_conv. split.
  - rewrite length_fmap, length_seq. reflexivity.
  - apply Forall_fmap, Forall_forall. intros v _. simpl.
    rewrite length_fmap, length_seq. reflexivity.
Qed.

(** The integer log-softmax keeps the length of a row. *)
Lemma int_log_softmax_shapes : log_softmax_shapes (F:=Z).
Proof. intros row. simpl. apply length_fmap. Qed.

Lemma training_loop_100_epochs_witness :
  ∃ st, train IntKernels.zachery_graph = Ok (LongVec IntKernels.zachery_club_ids, st).
Proof.
  destruct (training_loop_100_epochs IntKernels.zachery_graph) as (_ & _ & Htotal).
  destruct (Htotal IntKernels.zachery_club_ids 0 1) as [Hruns _].
  - exact mean_conv_shapes.
  - exact int_log_softmax_shapes.
  - vm_compute. reflexivity.
  - vm_compute. reflexivity.
  - reflexivity.
  - reflexivity.
  - apply Hruns; lia.
Defined.

(** Labels that are no classes: with every club label 5 the first epoch
    raises. *)
Example training_rejects_label_5 :
  train (F:=Z)
    {| num_nodes := 34; edge_src := zachery_src; edge_dst := zachery_dst;
       ndata := <["club" := LongVec (replicate 34 5)]> ∅; edata := ∅ |}
  = Raise IndexError.
Proof. vm_compute. reflexivity. Qed.

Example training_run_log :
  (λ r, (length (all_logits r.2), fst <$> losses r.2)) <$> train IntKernels.zachery_graph
  = Ok (100%nat, [0; 5; 10; 15; 20; 25; 30; 35; 40; 45; 50; 55; 60; 65; 70; 75;
                  80; 85; 90; 95]%nat).
Proof. vm_compute. reflexivity. Qed.

(** ** The accuracy *)

Section AccuracyFacts.
Context {F : Type} `{!FloatOps F} `{!Kernels (F:=F)}.

Lemma argmax_axis1_total {A} (gt : A → A → bool) (m : list (list A)) :
  Forall (λ row, row ≠ []) m →
  ∃ pred, argmax_axis1 gt m = Ok pred ∧ length pred = length m.
Proof.
  unfold argmax_axis1. induction 1 as [|row m Hrow _ (pred & IH & Hlen)]; simpl.
  - exists []. split; reflexivity.
  - destruct row as [|x row]; [congruence |]. simpl. rewrite IH. simpl.
    eexists. split; [reflexivity |]. simpl. rewrite Hlen. reflexivity.
Qed.

(** Summing the comparison counts the positions where prediction and label
    agree. *)
Lemma sum_bool_agreements (pred lv done_p done_l : list Z) :
  length done_p = length done_l → length pred = length lv →
  sum_bool (zip_with Z.eqb pred lv)
  = Z.of_nat (length (filter (λ i, (done_p ++ pred) !! i = (done_l ++ lv) !! i)
                             (seq (length done_p) (length pred)))).
Proof.
  revert lv done_p done_l.
  induction pred as [|p pred IH]; intros [|l lv] done_p done_l Hdone Hlen;
    try discriminate; [reflexivity |].
  simpl. rewrite filter_cons.
  rewrite (IH lv (done_p ++ [p]) (done_l ++ [l])); cycle 1.
  { rewrite !length_app. simpl. lia. }
  { simpl in Hlen. lia. }
  rewrite <- !app_assoc. simpl.
  replace (length (done_p ++ [p])) with (S (length done_p))
    by (rewrite length_app; simpl; lia).
  rewrite list_lookup_middle by reflexivity.
  rewrite (list_lookup_middle done_l lv l (length done_p)) by exact Hdone.
  destruct (Z.eqb_spec p l) as [-> | Hne]; case_decide; try congruence.
  - simpl length. lia.
  - lia.
Qed.

Lemma sum_bool_correct_nodes (pred lv : list Z) :
  length pred = length lv →
  sum_bool (zip_with Z.eqb pred lv) = Z.of_nat (correct_nodes pred lv).
Proof. intros H. exact (sum_bool_agreements pred lv [] [] eq_refl H). Qed.

Lemma correct_nodes_le (pred lv : list Z) :
  (correct_nodes pred lv ≤ length pred)%nat.
Proof.
  unfold correct_nodes. etrans; [apply length_filter |].
  rewrite length_seq. reflexivity.
Qed.

(** The accuracy of logits with one non-empty row per label. *)
Lemma accuracy_fraction (lg : list (list F)) (lv : list Z) :
  lg ≠ [] → length lv = length lg → Forall (λ row, row ≠ []) lg →
  ∃ pred acc,
    argmax_axis1 fgtb lg = Ok pred ∧ length pred = length lg
    ∧ accuracy lg (LongVec lv) = Ok acc
    ∧ acc = Qmake (Z.of_nat (correct_nodes pred lv)) (Pos.of_nat (length lg))
    ∧ (0 <= acc)%Q ∧ (acc <= 1)%Q.
Proof.
  intros Hne Hlen Hrows.
  destruct (argmax_axis1_total fgtb lg Hrows) as (pred & Hpred & Hplen).
  exists pred, (Qmake (Z.of_nat (correct_nodes pred lv)) (Pos.of_nat (length lg))).
  split; [exact Hpred |]. split; [exact Hplen |].
  pose proof (correct_nodes_le pred lv) as Hle. rewrite Hplen in Hle.
  assert (Hpos : ∃ n, length lg = S n).
  { destruct lg; [congruence | simpl; eauto]. }
  destruct Hpos as [n Hn].
  split.
  { unfold accuracy. rewrite Hpred. simpl. unfold eq_long.
    replace (length pred =? length lv)%nat with true
      by (symmetry; apply Nat.eqb_eq; congruence).
    simpl. rewrite sum_bool_correct_nodes by congruence.
    rewrite Hplen, Hn. reflexivity. }
  split; [reflexivity |]. rewrite Hn in *.
  unfold Qle. simpl. lia.
Qed.

Lemma argmax_row_pair {A} (gt : A → A → bool) (x0 x1 : A) :
  argmax_row gt [x0; x1] = Ok (if gt x1 x0 then 1 else 0).
Proof. simpl. destruct (gt x1 x0); reflexivity. Qed.

(** The prediction of a node with two logits is class 1 when the second
    logit is greater than the first, and class 0 otherwise. *)
Lemma argmax_axis1_two_classes {A} (gt : A → A → bool) (lg : list (list A))
    (pred : list Z) (v : nat) :
  argmax_axis1 gt lg = Ok pred →
  Forall (λ row, length row = 2%nat) lg → (v < length lg)%nat →
  ∃ x0 x1, lg !! v = Some [x0; x1]
           ∧ pred !! v = Some (if gt x1 x0 then 1 else 0).
Proof.
  intros Hpred Hrows Hv.
  destruct (lookup_lt_is_Some_2 lg v Hv) as [row Hrow].
  pose proof (proj1 (Forall_lookup _ _) Hrows _ _ Hrow) as Hlen. simpl in Hlen.
  destruct row as [|x0 [|x1 [|? ?]]]; try discriminate.
  exists x0, x1. split; [exact Hrow |].
  destruct (mapM_lookup _ _ _ v Hpred) as [[_ Hnone] | (row & p & Hrow' & Hp & Harg)].
  - rewrite Hrow in Hnone. discriminate.
  - rewrite Hrow in Hrow'. injection Hrow' as <-.
    rewrite argmax_row_pair in Harg. injection Harg as <-. exact Hp.
Qed.

(** C4: on a graph of 34 nodes with a label per node (0 or 1 for the two
    labeled nodes), and with layers that return one row of [out_feats]
    entries per node and keep the shapes, the second notebook ends with an
    accuracy that is the number of nodes whose predicted class equals
    their label, divided by 34; the predicted class of a node is the
    argmax over its two logits of the last epoch (1 when the second logit
    is greater than the first, 0 otherwise); the accuracy lies between 0
    and 1. *)
Theorem accuracy_of_final_logits (g : DGLGraph F) (lv : list Z) (l0 l33 : Z) :
  SAGEConv_shapes → log_softmax_shapes → number_of_nodes g = 34%nat →
  ndata g !! "club" = Some (LongVec lv) → length lv = 34%nat →
  lv !! 0%nat = Some l0 → lv !! 33%nat = Some l33 →
  0 ≤ l0 < 2 → 0 ≤ l33 < 2 →
  ∃ (st : train_state) (acc : Q) (lg : list (list F)) (pred : list Z),
    notebook2 g = Ok (st, acc)
    ∧ all_logits st !! 99%nat = Some lg ∧ logits st = Some lg
    ∧ length lg = 34%nat ∧ Forall (λ row, length row = 2%nat) lg
    ∧ argmax_axis1 fgtb lg = Ok pred ∧ length pred = 34%nat
    ∧ (∀ v, (v < 34)%nat →
         ∃ x0 x1, lg !! v = Some [x0; x1]
                  ∧ pred !! v = Some (if fgtb x1 x0 then 1 else 0))
    ∧ acc = Qmake (Z.of_nat (correct_nodes pred lv)) 34
    ∧ correct_nodes pred lv
      = length (filter (λ v, pred !! v = lv !! v) (seq 0 34))
    ∧ (0 <= acc)%Q ∧ (acc <= 1)%Q.
Proof.
  intros Hshape Hsoft Hg Hclub Hlv Hl0 Hl33 Hc0 Hc33.
  destruct (train_total g lv l0 l33 Hshape Hsoft) as [st Htrain];
    try assumption; [lia |].
  destruct (train_trace g _ st Htrain)
    as (st0 & Hsetup & _ & Hlen & Hlast & _ & Hnth).
  destruct (Hnth 99%nat) as (st_e & Hpre & Hlg); [lia |].
  set (lg := GraphSAGE_forward (net (mods st_e)) g (inputs (mods st_e))) in *.
  assert (Hdims : out_feats (conv2 (net (mods st_e))) = 2%nat).
  { eapply (for_range_invariant (epoch g (LongVec lv))
              (λ s, out_feats (conv2 (net (mods s))) = 2%nat)); [| | exact Hpre].
    - intros e s s' Hs He. rewrite (epoch_out_feats _ _ _ _ _ He). exact Hs.
    - eapply setup_out_feats, Hsetup. }
  assert (Hrows : length lg = 34%nat ∧ Forall (λ row, length row = 2%nat) lg).
  { destruct (forward_shape (net (mods st_e)) g (inputs (mods st_e)) Hshape) as [H1 H2].
    fold lg in H1, H2. rewrite H1, Hg. split; [reflexivity |].
    rewrite <- Hdims. exact H2. }
  destruct Hrows as [Hlglen Hlgrows].
  assert (Hlogits : logits st = Some lg).
  { rewrite Hlast, last_lookup, Hlen. exact Hlg. }
  destruct (accuracy_fraction lg lv) as (pred & acc & Hpred & Hplen & Hacc & -> & Hge & Hle).
  { intros E. rewrite E in Hlglen. discriminate. }
  { congruence. }
  { eapply Forall_impl; [exact Hlgrows |]. intros row Hrow E. rewrite E in Hrow.
    discriminate. }
  exists st, (Qmake (Z.of_nat (correct_nodes pred lv)) (Pos.of_nat (length lg))), lg, pred.
  split.
  { unfold notebook2. rewrite Htrain. unfold mbind at 1, result_bind at 1.
    cbv beta iota. unfold check_results. rewrite Hlogits, Hacc. reflexivity. }
  split; [exact Hlg |]. split; [exact Hlogits |]. split; [exact Hlglen |].
  split; [exact Hlgrows |]. split; [exact Hpred |]. split; [congruence |].
  split.
  { intros v Hv. apply (argmax_axis1_two_classes fgtb lg pred v Hpred Hlgrows).
    rewrite Hlglen. exact Hv. }
  split; [rewrite Hlglen; reflexivity |].
  split; [unfold correct_nodes; rewrite Hplen, Hlglen; reflexivity |].
  split; assumption.
Qed.

End AccuracyFacts.

Lemma accuracy_of_final_logits_witness :
  ∃ (st : train_state) (acc : Q),
    notebook2 IntKernels.zachery_graph = Ok (st, acc)
    ∧ (0 <= acc)%Q ∧ (acc <= 1)%Q.
Proof.
  destruct (accuracy_of_final_logits IntKernels.zachery_graph
              IntKernels.zachery_club_ids 0 1 mean_conv_shapes int_log_softmax_shapes)
    as (st & acc & lg & pred & Hrun & _ & _ & _ & _ & _ & _ & _ & _ & _ & Hge & Hle).
  - vm_compute. reflexivity.
  - vm_compute. reflexivity.
  - vm_compute. reflexivity.
  - reflexivity.
  - reflexivity.
  - lia.
  - lia.
  - exists st, acc. split; [exact Hrun |]. split; assumption.
Defined.

Example accuracy_on_small_logits :
  accuracy (F:=Z) [[1; 5]; [7; 2]; [3; 3]; [0; 9]] (LongVec [1; 1; 0; 0])
  = Ok (2 # 4).
Proof. reflexivity. Qed.

(** ** The trainable embedding *)

Section EmbeddingFacts.
Context {F : Type} `{!FloatOps F} `{!Kernels (F:=F)}.




Lemma adam_steps_length rate refs sts grads (m : modules) :
  length (adam_steps rate refs sts grads m).1 = length sts.
Proof.
  revert sts m. induction refs as [|r refs IH]; intros [|s sts] m; simpl;
    try reflexivity.
  destruct (read_param m r) as [p|].
  - destruct (adam_step rate s p (grads r)) as [s' p'].
    specialize (IH sts (write_param m r p')).
    destruct (adam_steps rate refs sts grads (write_param m r p')) as [ss m'].
    simpl in *. rewrite IH. reflexivity.
  - specialize (IH sts m).
    destruct (adam_steps rate refs sts grads m) as [ss m']. simpl in *.
    rewrite IH. reflexivity.
Qed.




End EmbeddingFacts.


Example embedding_changes_in_an_epoch :
  (λ st', bool_decide (inputs (mods st') = inputs (mods IntKernels.zachery_start)))
    <$> epoch IntKernels.zachery_graph IntKernels.zachery_labels 0
          IntKernels.zachery_start
  = Ok false.
Proof. vm_compute. reflexivity. Qed.

Example embedding_shape :
  (λ r, (length (inputs (mods r.2)), length <$> head (inputs (mods r.2))))
    <$> setup IntKernels.zachery_graph
  = Ok (34%nat, Some 5%nat).
Proof. vm_compute. reflexivity. Qed.

(** * Further properties of the notebooks *)

(** ** The one-hot encoding of the clubs *)

Lemma max_list_bools (bs : list bool) :
  max_list (bools_long bs)
  = match bs with [] => -1 | _ => if existsb id bs then 1 else 0 end.
Proof.
  induction bs as [|b bs IH]; [reflexivity |].
  change (max_list (bools_long (b :: bs)))
    with (Z.max (if b then 1 else 0) (max_list (bools_long bs))).
  rewrite IH. simpl. destruct b, bs as [|b' bs']; simpl; try reflexivity;
    destruct (b' || existsb id bs'); reflexivity.
Qed.

Lemma one_hot_length (v : list Z) (oh : list (list Z)) :
  one_hot v = Ok oh → length oh = length v.
Proof.
  unfold one_hot. destruct v as [|c v]; [discriminate |].
  destruct (forallb _ _); [| discriminate].
  intros [= <-]. simpl. rewrite length_fmap. reflexivity.
Qed.

Lemma existsb_bools_long (bs : list bool) :
  existsb id bs = true ↔ 1 ∈ bools_long bs.
Proof.
  unfold bools_long. rewrite existsb_exists, list_elem_of_fmap. split.
  - intros (b & Hb & Hid). exists b. apply list_elem_of_In in Hb.
    destruct b; [split; [reflexivity | exact Hb] | discriminate].
  - intros (b & Hb & Hin). exists b. apply list_elem_of_In in Hin.
    destruct b; [split; [exact Hin | reflexivity] | discriminate].
Qed.

(** X4: the shape of [club_onehot]: one row per member, and two columns only
    when some member is an ['Officer']; when nobody is, [F.one_hot] infers a
    single class and every row is [[1]].  A [Club] column that was parsed
    as numbers has no ['Officer'] in it. *)
Theorem club_onehot_shape {F : Type} (c : column F) :
  column_length c ≠ 0%nat →
  ∃ club_onehot : list (list Z),
    one_hot (club_encoding c) = Ok club_onehot
    ∧ length club_onehot = column_length c
    ∧ (∀ i ci, club_encoding c !! i = Some ci →
         club_onehot !! i
         = Some (if decide (1 ∈ club_encoding c)
                 then (if ci =? 1 then [0; 1] else [1; 0])
                 else [1]))
    ∧ (∀ clubs, c = StrCol clubs →
         (1 ∈ club_encoding c ↔ "Officer"%string ∈ clubs))
    ∧ ((∀ clubs, c ≠ StrCol clubs) → 1 ∉ club_encoding c).
Proof.
  intros Hlen. unfold club_encoding.
  assert (Hbs : is_officer c ≠ []).
  { intros E. apply Hlen. apply (f_equal length) in E.
    destruct c; simpl in *; rewrite length_fmap in E; exact E. }
  assert (Hoh : one_hot (bools_long (is_officer c))
                = Ok (one_hot_row (if existsb id (is_officer c) then 2 else 1)
                        <$> bools_long (is_officer c))).
  { unfold one_hot. rewrite bools_long_nonneg, max_list_bools.
    destruct (is_officer c) as [|b bs] eqn:E; [congruence |].
    change (bools_long (b :: bs))
      with ((if b then 1 else 0) :: bools_long bs).
    cbv beta iota. destruct (existsb id (b :: bs)); reflexivity. }
  eexists. split; [exact Hoh |]. split.
  { rewrite length_fmap. unfold bools_long. rewrite length_fmap.
    destruct c; simpl; apply length_fmap. }
  split.
  { intros i ci Hi. rewrite list_lookup_fmap, Hi. simpl. f_equal.
    assert (Hrange : ci = 0 ∨ ci = 1).
    { eapply bools_long_range, list_elem_of_lookup_2, Hi. }
    destruct (existsb id (is_officer c)) eqn:Hex.
    - apply existsb_bools_long in Hex. rewrite decide_True by exact Hex.
      destruct Hrange as [-> | ->]; reflexivity.
    - rewrite decide_False.
      + destruct Hrange as [-> | ->]; [reflexivity |].
        exfalso. assert (H1 : existsb id (is_officer c) = true).
        { apply existsb_bools_long. eapply list_elem_of_lookup_2, Hi. }
        congruence.
      + intros H1. apply existsb_bools_long in H1. congruence. }
  split.
  { intros clubs ->. simpl. unfold bools_long.
    rewrite <- list_fmap_compose, !list_elem_of_fmap. split.
    - intros (s & Hs & Hin). simpl in Hs.
      destruct (String.eqb_spec s "Officer"); [subst; exact Hin | discriminate].
    - intros Hin. exists "Officer"%string. split; [reflexivity | exact Hin]. }
  intros Hnot. unfold bools_long.
  rewrite list_elem_of_fmap. intros (b & Hb & Hin).
  destruct c as [xs | xs | xs]; simpl in Hin.
  - apply list_elem_of_fmap in Hin as (? & -> & _). discriminate.
  - apply list_elem_of_fmap in Hin as (? & -> & _). discriminate.
  - exact (Hnot xs eq_refl).
Qed.

Lemma club_onehot_shape_witness :
  ∃ club_onehot : list (list Z),
    one_hot (club_encoding (F:=Z) (StrCol ["Mr. Hi"; "mr. hi"])) = Ok club_onehot
    ∧ length club_onehot = 2%nat.
Proof.
  destruct (club_onehot_shape (F:=Z) (StrCol ["Mr. Hi"; "mr. hi"]))
    as (oh & Hoh & Hlen & _); [discriminate |].
  exists oh. split; [exact Hoh | exact Hlen].
Defined.

(** ** Running statements one at a time *)

Section Stepping.
Context {F : Type} `{!FloatOps F}.

Lemma run_cons_ok (s : stmt F) (prog : list (stmt F)) (st st' : state F) :
  s st = (st', None) → run (s :: prog) st = run prog st'.
Proof. intros H. simpl. rewrite H. reflexivity. Qed.

Lemma run_cons_raise (s : stmt F) (prog : list (stmt F)) (st st' : state F) e :
  s st = (st', Some e) → run (s :: prog) st = (st', Some e).
Proof. intros H. simpl. rewrite H. reflexivity. Qed.

Lemma assign_ok x (rhs : gmap string (pyobj F) → result (pyobj F)) (st : state F) v :
  rhs (vars st) = Ok v →
  assign x rhs st = ({| vars := <[x := v]> (vars st); out := out st |}, None).
Proof. unfold assign. intros ->. reflexivity. Qed.

Lemma print_ok (rhs : gmap string (pyobj F) → result (pyobj F)) (st : state F) v :
  rhs (vars st) = Ok v →
  print rhs st = ({| vars := vars st; out := out st ++ [v] |}, None).
Proof. unfold print. intros ->. reflexivity. Qed.

Lemma update_graph_ok f (st : state F) (g g' : DGLGraph F) :
  get_graph "g" (vars st) = Ok g → f (vars st) g = Ok g' →
  update_graph "g" f st
  = ({| vars := <["g" := VGraph g']> (vars st); out := out st |}, None).
Proof.
  intros Hg Hf. apply assign_ok. rewrite Hg. simpl. rewrite Hf. reflexivity.
Qed.

Lemma update_graph_raise f (st : state F) (g : DGLGraph F) e :
  get_graph "g" (vars st) = Ok g → f (vars st) g = Raise e →
  update_graph "g" f st = (st, Some e).
Proof.
  intros Hg Hf. apply assign_raises. rewrite Hg. simpl. rewrite Hf. reflexivity.
Qed.

Lemma print_graph_ok (st : state F) (g : DGLGraph F) :
  get_graph "g" (vars st) = Ok g →
  print_graph "g" st
  = ({| vars := vars st; out := out st ++ [VSummary (summarize g)] |}, None).
Proof. intros Hg. apply print_ok. rewrite Hg. reflexivity. Qed.

Lemma set_ndata_ok k (t : tensor F) (g : DGLGraph F) :
  rows t = number_of_nodes g →
  set_ndata k t g
  = Ok {| num_nodes := num_nodes g; edge_src := edge_src g; edge_dst := edge_dst g;
          ndata := <[k := t]> (ndata g); edata := edata g |}.
Proof. intros H. unfold set_ndata. rewrite decide_True by exact H. reflexivity. Qed.

Lemma set_ndata_raise k (t : tensor F) (g : DGLGraph F) :
  rows t ≠ number_of_nodes g → set_ndata k t g = Raise DGLError.
Proof. intros H. unfold set_ndata. rewrite decide_False by exact H. reflexivity. Qed.

Lemma set_edata_ok k (t : tensor F) (g : DGLGraph F) :
  rows t = number_of_edges g →
  set_edata k t g
  = Ok {| num_nodes := num_nodes g; edge_src := edge_src g; edge_dst := edge_dst g;
          ndata := ndata g; edata := <[k := t]> (edata g) |}.
Proof. intros H. unfold set_edata. rewrite decide_True by exact H. reflexivity. Qed.

End Stepping.

(** ** [g.ndata.update] with the two club features *)

(** X5: when [club_onehot] is the one-hot encoding of [club], the update sets
    both features or none: the second assignment cannot fail after the
    first, because both tensors have the same number of rows.  It fails,
    with [DGLError] and the graph as it was, exactly when their number of
    rows is not the number of nodes. *)
Theorem ndata_update_all_or_nothing {F : Type} `{!FloatOps F}
    (st : state F) (g : DGLGraph F) (club : list Z) (club_onehot : list (list Z)) :
  get_graph "g" (vars st) = Ok g →
  get_tensor "club" (vars st) = Ok (LongVec club) →
  get_tensor "club_onehot" (vars st) = Ok (LongMat club_onehot) →
  one_hot club = Ok club_onehot →
  (length club = number_of_nodes g
   ∧ ∃ g', stmt_update_club st
           = ({| vars := <["g" := VGraph g']> (vars st); out := out st |}, None)
         ∧ ndata g' = <["club_onehot" := LongMat club_onehot]>
                        (<["club" := LongVec club]> (ndata g))
         ∧ edata g' = edata g ∧ same_structure g g')
  ∨ (length club ≠ number_of_nodes g
     ∧ stmt_update_club st
       = ({| vars := <["g" := VGraph g]> (vars st); out := out st |}, Some DGLError)).
Proof.
  intros Hg Hclub Hoh Hone.
  pose proof (one_hot_length _ _ Hone) as Hlen.
  unfold stmt_update_club, ndata_update_stmt. rewrite Hg. simpl.
  rewrite Hclub, Hoh. simpl.
  destruct (decide (length club = number_of_nodes g)) as [Heq | Hne]; [left | right].
  - split; [exact Heq |].
    rewrite (set_ndata_ok "club" (LongVec club) g) by exact Heq.
    rewrite set_ndata_ok by (unfold number_of_nodes in *; simpl; congruence).
    eexists. split; [reflexivity |]. simpl. repeat split.
  - split; [exact Hne |].
    rewrite (set_ndata_raise "club" (LongVec club) g) by exact Hne. reflexivity.
Qed.

Lemma ndata_update_all_or_nothing_witness :
  stmt_update_club IntKernels.club_state ≠ (IntKernels.club_state, Some DGLError).
Proof.
  assert (Hg : get_graph "g" (vars IntKernels.club_state) = Ok IntKernels.tiny_graph)
    by (vm_compute; reflexivity).
  assert (Hclub : get_tensor "club" (vars IntKernels.club_state) = Ok (LongVec [0; 1]))
    by (vm_compute; reflexivity).
  assert (Hoh : get_tensor "club_onehot" (vars IntKernels.club_state)
                = Ok (LongMat [[1; 0]; [0; 1]]))
    by (vm_compute; reflexivity).
  destruct (ndata_update_all_or_nothing IntKernels.club_state IntKernels.tiny_graph
              [0; 1] [[1; 0]; [0; 1]] Hg Hclub Hoh eq_refl)
    as [(_ & g' & -> & _) | (Hne & _)].
  - discriminate.
  - exfalso. apply Hne. reflexivity.
Defined.

(** ** The age feature *)

Section AgeFacts.
Context {F : Type} `{!FloatOps F}.

Lemma rows_age (t : tensor F) :
  rows (tensor_div (tensor_float t) 100) = rows t.
Proof.
  destruct t as [v | m | v | m]; simpl; rewrite ?length_fmap; reflexivity.
Qed.

Lemma index_one_out_of_range {A} (l : list A) (i : Z) :
  Z.of_nat (length l) ≤ i → index_one l i = Raise IndexError.
Proof.
  intros Hi. unfold index_one.
  replace (i <? 0) with false by (symmetry; apply Z.ltb_ge; lia).
  replace (i <? Z.of_nat (length l)) with false by (symmetry; apply Z.ltb_ge; lia).
  rewrite andb_false_r. reflexivity.
Qed.

Lemma index_rows_short {A} (l : list A) (i j : Z) :
  0 ≤ i → 0 ≤ j → Z.of_nat (length l) ≤ i ∨ Z.of_nat (length l) ≤ j →
  index_rows l [i; j] = Raise IndexError.
Proof.
  intros Hi Hj Hshort. unfold index_rows. simpl.
  destruct (decide (Z.of_nat (length l) ≤ i)) as [Hle | Hgt].
  - rewrite (index_one_out_of_range l i Hle). reflexivity.
  - destruct Hshort as [? | Hle]; [contradiction |].
    destruct (lookup_lt_is_Some_2 l (Z.to_nat i)) as [a Ha]; [lia |].
    rewrite (index_one_ok l i a Hi Ha). simpl.
    rewrite (index_one_out_of_range l j Hle). reflexivity.
Qed.

Lemma index_rows_pair_ok {A} (l : list A) (i j : Z) :
  0 ≤ i < Z.of_nat (length l) → 0 ≤ j < Z.of_nat (length l) →
  ∃ a b, index_rows l [i; j] = Ok [a; b].
Proof.
  intros Hi Hj. unfold index_rows. simpl.
  destruct (lookup_lt_is_Some_2 l (Z.to_nat i)) as [a Ha]; [lia |].
  destruct (lookup_lt_is_Some_2 l (Z.to_nat j)) as [b Hb]; [lia |].
  rewrite (index_one_ok l i a), (index_one_ok l j b) by (lia || assumption).
  simpl. eauto.
Qed.

Lemma tensor_index_short (t : tensor F) (i j : Z) :
  0 ≤ i → 0 ≤ j → Z.of_nat (rows t) ≤ i ∨ Z.of_nat (rows t) ≤ j →
  tensor_index t [i; j] = Raise IndexError.
Proof.
  intros Hi Hj Hshort.
  destruct t as [v | m | v | m]; simpl in *;
    rewrite index_rows_short by assumption; reflexivity.
Qed.

Lemma tensor_index_pair_ok (t : tensor F) (i j : Z) :
  0 ≤ i < Z.of_nat (rows t) → 0 ≤ j < Z.of_nat (rows t) →
  ∃ t', tensor_index t [i; j] = Ok t' ∧ rows t' = 2%nat.
Proof.
  intros Hi Hj.
  destruct t as [v | m | v | m]; simpl in *;
    destruct (index_rows_pair_ok _ i j Hi Hj) as (a & b & ->); simpl; eauto.
Qed.

(** X3: the cell that prepares the age: the tensor has one row per row of the
    table, and with ten members or fewer the cell stops at [age[[0, 10]]]
    with [IndexError], after [age] was bound and printed and before the
    feature is attached to the graph. *)
Theorem cell_age_needs_eleven_rows (st : state F)
    (nodes_data : gmap string (column F)) (c : column F) (t : tensor F) :
  get_frame "nodes_data" (vars st) = Ok nodes_data →
  getcol nodes_data "Age" = Ok c →
  torch_tensor c = Ok t →
  rows (tensor_div (tensor_float t) 100) = column_length c
  ∧ ((column_length c ≤ 10)%nat →
     run cell_age st
     = ({| vars := <["age" := VTensor (tensor_div (tensor_float t) 100)]> (vars st);
           out := out st ++ [VTensor (tensor_div (tensor_float t) 100)] |},
        Some IndexError)).
Proof.
  intros Hdf Hcol Ht.
  assert (Hrows : rows t = column_length c).
  { destruct c; simpl in Ht; [| | discriminate]; injection Ht as <-; reflexivity. }
  split; [rewrite rows_age; exact Hrows |].
  intros Hshort. unfold cell_age.
  erewrite run_cons_ok; cycle 1.
  { apply assign_ok. rewrite Hdf. simpl. rewrite Hcol. simpl. rewrite Ht. reflexivity. }
  erewrite run_cons_ok; cycle 1.
  { apply print_ok. simpl. unfold lookup_var. rewrite lookup_insert_eq. reflexivity. }
  erewrite run_cons_raise; [reflexivity |].
  apply print_raises. simpl. unfold get_tensor, lookup_var.
  rewrite lookup_insert_eq. simpl.
  rewrite tensor_index_short; [reflexivity | lia | lia |].
  right. rewrite rows_age, Hrows. lia.
Qed.

End AgeFacts.

Lemma cell_age_needs_eleven_rows_witness :
  ∃ (st : state Z) (age : tensor Z),
    run cell_age {| vars := <["nodes_data" := VFrame (nodes_csv [30; 40])]> ∅; out := [] |}
    = (st, Some IndexError)
    ∧ vars st !! "age" = Some (VTensor age) ∧ rows age = 2%nat.
Proof.
  destruct (cell_age_needs_eleven_rows
              {| vars := <["nodes_data" := VFrame (nodes_csv [30; 40])]> ∅; out := [] |}
              (nodes_csv [30; 40]) (IntCol [30; 40]) (LongVec [30; 40]))
    as [Hrows Hrun]; [vm_compute; reflexivity | vm_compute; reflexivity | reflexivity |].
  eexists _, _. split; [apply Hrun; simpl; lia |].
  split; [apply lookup_insert_eq | exact Hrows].
Defined.

(** ** Source and destination features *)

(** X6: the two random features have 34 rows, so the cell works on graphs of
    exactly 34 nodes: there both features are added to [g.ndata] beside
    the ones already present, the structure is unchanged, and
    [g.ndata['src_h']] reads back the tensor that was assigned through
    [g.srcdata].  On any other graph the first assignment raises
    [DGLError] and nothing is changed or printed. *)
Theorem cell_src_dst_needs_34_nodes {F : Type} `{!FloatOps F}
    (rnd_src rnd_dst : nat → nat → F) (st : state F) (g : DGLGraph F) :
  get_graph "g" (vars st) = Ok g →
  (number_of_nodes g = 34%nat →
   ∃ g', run (cell_src_dst rnd_src rnd_dst ++ cell_print_src_h) st
         = ({| vars := <["g" := VGraph g']> (vars st);
               out := out st ++ [VSummary (summarize g');
                                 VTensor (randn rnd_src 34 4)] |}, None)
       ∧ ndata g' = <["dst_h" := randn rnd_dst 34 7]>
                      (<["src_h" := randn rnd_src 34 4]> (ndata g))
       ∧ edata g' = edata g ∧ same_structure g g')
  ∧ (number_of_nodes g ≠ 34%nat →
     run (cell_src_dst rnd_src rnd_dst ++ cell_print_src_h) st = (st, Some DGLError)).
Proof.
  intros Hg. split.
  - intros Hn. unfold cell_src_dst, cell_print_src_h. simpl app.
    erewrite run_cons_ok; cycle 1.
    { eapply update_graph_ok; [exact Hg |]. apply set_ndata_ok. rewrite Hn. reflexivity. }
    erewrite run_cons_ok; cycle 1.
    { eapply update_graph_ok; [apply get_graph_insert |].
      apply set_ndata_ok. unfold number_of_nodes in *. simpl num_nodes.
      rewrite Hn. reflexivity. }
    erewrite run_cons_ok; cycle 1.
    { apply print_graph_ok. apply get_graph_insert. }
    erewrite run_cons_ok; cycle 1.
    { apply print_ok. cbn [vars]. rewrite get_graph_insert. simpl.
      rewrite lookup_insert_ne by discriminate. rewrite lookup_insert_eq. reflexivity. }
    eexists. split.
    { simpl. rewrite insert_insert_eq, <- app_assoc. reflexivity. }
    repeat split.
  - intros Hn. unfold cell_src_dst. simpl app.
    erewrite run_cons_raise; [reflexivity |].
    eapply update_graph_raise; [exact Hg |]. apply set_ndata_raise.
    intros E. apply Hn. rewrite <- E. reflexivity.
Qed.

Lemma cell_src_dst_needs_34_nodes_witness :
  run (cell_src_dst (λ _ _, 0) (λ _ _, 1) ++ cell_print_src_h) IntKernels.tiny_state
  = (IntKernels.tiny_state, Some DGLError).
Proof.
  destruct (cell_src_dst_needs_34_nodes (λ _ _, 0) (λ _ _, 1)
              IntKernels.tiny_state IntKernels.tiny_graph eq_refl) as [_ Hfail].
  apply Hfail. simpl. lia.
Defined.

(** ** The first notebook on well-formed tables *)

Section Notebook1Runs.
Context {F : Type} `{!FloatOps F}.

Lemma dgl_graph_ok (src dst : list Z) :
  length src = length dst → Forall (λ v, 0 ≤ v) (src ++ dst) →
  dgl_graph (F:=F) src dst
  = Ok {| num_nodes := Z.to_nat (max_list (src ++ dst) + 1);
          edge_src := src; edge_dst := dst; ndata := ∅; edata := ∅ |}.
Proof.
  intros Hlen Hpos. unfold dgl_graph.
  replace (length src =? length dst)%nat with true
    by (symmetry; apply Nat.eqb_eq; exact Hlen).
  replace (forallb (λ v, 0 <=? v) (src ++ dst)) with true; [reflexivity |].
  symmetry. apply forallb_forall. intros v Hv.
  rewrite Forall_forall in Hpos. apply Z.leb_le, Hpos, list_elem_of_In, Hv.
Qed.

Ltac tidy := cbn [vars out num_nodes edge_src edge_dst ndata edata].

Ltac find_var :=
  unfold get_frame, get_array, get_tensor, get_graph, lookup_var; cbn [vars];
  repeat first [rewrite lookup_insert_eq | rewrite lookup_insert_ne by discriminate];
  cbn [mbind result_bind].

(** The statements of [notebook1] on well-formed tables, one after the
    other. *)
Lemma notebook1_run
    (read_csv : string → result (gmap string (column F)))
    (nodes_data edges_data : gmap string (column F))
    (src dst : list Z) (age_col club_col weight_col : column F)
    (age weight : tensor F) :
  read_csv "data/nodes.csv" = Ok nodes_data →
  read_csv "data/edges.csv" = Ok edges_data →
  edges_data !! "Src" = Some (IntCol src) →
  edges_data !! "Dst" = Some (IntCol dst) →
  edges_data !! "Weight" = Some weight_col →
  nodes_data !! "Age" = Some age_col →
  nodes_data !! "Club" = Some club_col →
  length src = length dst → Forall (λ v, 0 ≤ v) (src ++ dst) →
  torch_tensor age_col = Ok age → torch_tensor weight_col = Ok weight →
  rows age = Z.to_nat (max_list (src ++ dst) + 1) →
  column_length club_col = Z.to_nat (max_list (src ++ dst) + 1) →
  rows weight = length src →
  (11 ≤ Z.to_nat (max_list (src ++ dst) + 1))%nat →
  ∃ (st : state F) (g : DGLGraph F) (club_onehot : list (list Z)),
    run (notebook1 read_csv) initial_state = (st, None)
    ∧ vars st !! "g" = Some (VGraph g)
    ∧ number_of_nodes g = Z.to_nat (max_list (src ++ dst) + 1)
    ∧ edge_src g = src ∧ edge_dst g = dst
    ∧ one_hot (club_encoding club_col) = Ok club_onehot
    ∧ ndata g = <["club_onehot" := LongMat club_onehot]>
                  (<["club" := LongVec (club_encoding club_col)]> ∅)
    ∧ edata g = <["weight" := weight]> ∅
    ∧ length (out st) = 13%nat
    ∧ last (out st) = Some (VSummary (summarize g)).
Proof.
  intros Hnodes Hedges Hsrc Hdst Hweight Hage Hclub Hlen Hpos Htage Htw
    Hrows_age Hrows_club Hrows_w Heleven.
  set (n := Z.to_nat (max_list (src ++ dst) + 1)) in *.
  pose proof (dgl_graph_ok src dst Hlen Hpos) as Hdgl. fold n in Hdgl.
  set (g0 := {| num_nodes := n; edge_src := src; edge_dst := dst;
                ndata := ∅; edata := ∅ |}) in *.
  set (t_age := tensor_div (tensor_float age) 100).
  assert (Hrows_t : rows t_age = n) by (unfold t_age; rewrite rows_age; exact Hrows_age).
  destruct (tensor_index_pair_ok t_age 0 10) as (t010 & Hidx & _); [lia | lia |].
  assert (Hbs : is_officer club_col ≠ []).
  { intros E. apply (f_equal length) in E.
    destruct club_col; simpl in *; rewrite length_fmap in E; lia. }
  destruct (one_hot_bools _ Hbs) as (k & _ & _ & Hoh).
  fold (club_encoding club_col) in Hoh.
  set (oh := one_hot_row k <$> club_encoding club_col) in *.
  assert (Hrows_enc : length (club_encoding club_col) = n).
  { unfold club_encoding, bools_long. rewrite length_fmap.
    destruct club_col; simpl in *; rewrite length_fmap; exact Hrows_club. }
  unfold notebook1, cell_nodes_data, cell_edges_data, cell_graph, cell_query,
    cell_age, cell_club, cell_weight, initial_state. simpl app.
  (* the two tables *)
  tidy; erewrite run_cons_ok; [| apply assign_ok; rewrite Hnodes; reflexivity].
  tidy; erewrite run_cons_ok; [| apply print_ok; find_var; reflexivity].
  tidy; erewrite run_cons_ok; [| apply assign_ok; rewrite Hedges; reflexivity].
  tidy; erewrite run_cons_ok; [| apply print_ok; find_var; reflexivity].
  (* the graph *)
  tidy; erewrite run_cons_ok;
    [| apply assign_ok; find_var; unfold getcol; rewrite Hsrc; reflexivity].
  tidy; erewrite run_cons_ok;
    [| apply assign_ok; find_var; unfold getcol; rewrite Hdst; reflexivity].
  tidy; erewrite run_cons_ok;
    [| apply assign_ok; find_var; cbn [as_ids mbind result_bind];
       rewrite Hdgl; reflexivity].
  tidy; erewrite run_cons_ok; [| apply print_graph_ok; find_var; reflexivity].
  (* the queries *)
  tidy; erewrite run_cons_ok; [| apply print_ok; find_var; reflexivity].
  tidy; erewrite run_cons_ok; [| apply print_ok; find_var; reflexivity].
  tidy; erewrite run_cons_ok; cycle 1.
  { apply print_ok. find_var. unfold in_degree, has_node. cbn [num_nodes g0].
    replace (0 <? Z.of_nat n) with true by (symmetry; apply Z.ltb_lt; lia).
    reflexivity. }
  tidy; erewrite run_cons_ok; cycle 1.
  { apply print_ok. find_var. unfold successors, has_node. cbn [num_nodes g0].
    replace (0 <? Z.of_nat n) with true by (symmetry; apply Z.ltb_lt; lia).
    reflexivity. }
  (* the age *)
  tidy; erewrite run_cons_ok; cycle 1.
  { apply assign_ok. find_var. unfold getcol. rewrite Hage.
    cbn [mbind result_bind]. rewrite Htage. reflexivity. }
  tidy; erewrite run_cons_ok; [| apply print_ok; find_var; reflexivity].
  tidy; erewrite run_cons_ok; cycle 1.
  { apply print_ok. find_var. fold t_age. rewrite Hidx. reflexivity. }
  tidy; erewrite run_cons_ok; cycle 1.
  { eapply update_graph_ok; [find_var; reflexivity |]. find_var.
    apply set_ndata_ok. exact Hrows_t. }
  tidy; erewrite run_cons_ok; [| apply print_graph_ok; find_var; reflexivity].
  (* the club *)
  tidy; erewrite run_cons_ok; cycle 1.
  { apply assign_ok. find_var. unfold getcol. rewrite Hclub. reflexivity. }
  tidy; erewrite run_cons_ok; [| apply assign_ok; find_var; reflexivity].
  tidy; erewrite run_cons_ok; cycle 1.
  { apply assign_ok. find_var. unfold one_hot_tensor. rewrite Hoh. reflexivity. }
  tidy; erewrite run_cons_ok; [| apply print_ok; find_var; reflexivity].
  tidy; erewrite run_cons_ok; cycle 1.
  { unfold stmt_update_club, ndata_update_stmt. cbn [mapM fst snd]. find_var.
    cbn [ndata_update_stmt_aux].
    rewrite (set_ndata_ok "club") by exact Hrows_enc.
    rewrite (set_ndata_ok "club_onehot")
      by (unfold oh; simpl; rewrite length_fmap; exact Hrows_enc).
    reflexivity. }
  tidy; erewrite run_cons_ok; cycle 1.
  { eapply update_graph_ok; [find_var; reflexivity |].
    unfold del_ndata. cbn [ndata].
    rewrite lookup_insert_ne by discriminate.
    rewrite lookup_insert_ne by discriminate.
    rewrite lookup_insert_eq. reflexivity. }
  tidy; erewrite run_cons_ok; [| apply print_graph_ok; find_var; reflexivity].
  (* the weight *)
  tidy; erewrite run_cons_ok; cycle 1.
  { apply assign_ok. find_var. unfold getcol. rewrite Hweight.
    cbn [mbind result_bind]. rewrite Htw. reflexivity. }
  tidy; erewrite run_cons_ok; cycle 1.
  { eapply update_graph_ok; [find_var; reflexivity |]. find_var.
    apply set_edata_ok. exact Hrows_w. }
  tidy; erewrite run_cons_ok; [| apply print_graph_ok; find_var; reflexivity].
  tidy. unfold g0. tidy. eexists _, _, oh. split; [reflexivity |]. cbn [vars out].
  split; [apply lookup_insert_eq |].
  split; [reflexivity |]. split; [reflexivity |]. split; [reflexivity |].
  split; [exact Hoh |]. cbn [ndata edata].
  split.
  { rewrite delete_insert_ne by discriminate.
    rewrite delete_insert_ne by discriminate.
    rewrite delete_insert_eq, delete_empty. reflexivity. }
  split; [reflexivity |]. split; [reflexivity |].
  apply last_snoc.
Qed.

(** The cell on [srcdata] and [dstdata] and the cell that prints
    [g.ndata['src_h']], from a namespace in which [g] is a graph. *)
Lemma src_dst_cells_run (rnd_src rnd_dst : nat → nat → F) (st : state F)
    (g : DGLGraph F) :
  get_graph "g" (vars st) = Ok g →
  (number_of_nodes g = 34%nat →
   ∃ g', run (cell_src_dst rnd_src rnd_dst ++ cell_print_src_h) st
         = ({| vars := <["g" := VGraph g']> (vars st);
               out := out st ++ [VSummary (summarize g');
                                 VTensor (randn rnd_src 34 4)] |}, None)
       ∧ ndata g' = <["dst_h" := randn rnd_dst 34 7]>
                      (<["src_h" := randn rnd_src 34 4]> (ndata g))
       ∧ edata g' = edata g ∧ same_structure g g')
  ∧ (number_of_nodes g ≠ 34%nat →
     run (cell_src_dst rnd_src rnd_dst ++ cell_print_src_h) st = (st, Some DGLError)).
Proof.
  intros Hg. split.
  - intros Hn. unfold cell_src_dst, cell_print_src_h. simpl app.
    erewrite run_cons_ok; cycle 1.
    { eapply update_graph_ok; [exact Hg |]. apply set_ndata_ok. rewrite Hn. reflexivity. }
    erewrite run_cons_ok; cycle 1.
    { eapply update_graph_ok; [apply get_graph_insert |].
      apply set_ndata_ok. unfold number_of_nodes in *. simpl num_nodes.
      rewrite Hn. reflexivity. }
    erewrite run_cons_ok; cycle 1.
    { apply print_graph_ok. apply get_graph_insert. }
    erewrite run_cons_ok; cycle 1.
    { apply print_ok. cbn [vars]. rewrite get_graph_insert. simpl.
      rewrite lookup_insert_ne by discriminate. rewrite lookup_insert_eq. reflexivity. }
    eexists. split.
    { simpl. rewrite insert_insert_eq, <- app_assoc. reflexivity. }
    repeat split.
  - intros Hn. unfold cell_src_dst. simpl app.
    erewrite run_cons_raise; [reflexivity |].
    eapply update_graph_raise; [exact Hg |]. apply set_ndata_raise.
    intros E. apply Hn. rewrite <- E. reflexivity.
Qed.

(** X1: on tables whose edge ids are non-negative integers, whose [Age] and
    [Weight] columns are numeric, with one node row per node id up to the
    largest id in the edge table, one weight per edge and at least eleven
    nodes, every statement from the two [pd.read_csv] up to
    [g.edata['weight'] = edge_weight] and the [print(g)] after it runs.
    The graph then bound to [g] has the node features [club] and
    [club_onehot] (the age was attached and then deleted) and the edge
    feature [weight], and thirteen values were printed, the last one the
    summary of this graph.  The cells that follow, on [srcdata] and
    [dstdata], run as well exactly when the graph has 34 nodes: then [g]
    gets the two further node features [src_h] and [dst_h], its summary
    and [src_h] are printed, and the run ends without an exception;
    otherwise [g.srcdata['src_h'] = torch.randn(34, 4)] raises [DGLError]
    and the run ends there, with the namespace and the output of the
    weight cell. *)
Theorem notebook1_completes
    (read_csv : string → result (gmap string (column F)))
    (nodes_data edges_data : gmap string (column F))
    (src dst : list Z) (age_col club_col weight_col : column F)
    (age weight : tensor F) :
  read_csv "data/nodes.csv" = Ok nodes_data →
  read_csv "data/edges.csv" = Ok edges_data →
  edges_data !! "Src" = Some (IntCol src) →
  edges_data !! "Dst" = Some (IntCol dst) →
  edges_data !! "Weight" = Some weight_col →
  nodes_data !! "Age" = Some age_col →
  nodes_data !! "Club" = Some club_col →
  length src = length dst → Forall (λ v, 0 ≤ v) (src ++ dst) →
  torch_tensor age_col = Ok age → torch_tensor weight_col = Ok weight →
  rows age = Z.to_nat (max_list (src ++ dst) + 1) →
  column_length club_col = Z.to_nat (max_list (src ++ dst) + 1) →
  rows weight = length src →
  (11 ≤ Z.to_nat (max_list (src ++ dst) + 1))%nat →
  ∃ (st : state F) (g : DGLGraph F) (club_onehot : list (list Z)),
    run (notebook1 read_csv) initial_state = (st, None)
    ∧ vars st !! "g" = Some (VGraph g)
    ∧ number_of_nodes g = Z.to_nat (max_list (src ++ dst) + 1)
    ∧ edge_src g = src ∧ edge_dst g = dst
    ∧ one_hot (club_encoding club_col) = Ok club_onehot
    ∧ ndata g = <["club_onehot" := LongMat club_onehot]>
                  (<["club" := LongVec (club_encoding club_col)]> ∅)
    ∧ edata g = <["weight" := weight]> ∅
    ∧ length (out st) = 13%nat
    ∧ last (out st) = Some (VSummary (summarize g))
    ∧ ∀ rnd_src rnd_dst : nat → nat → F,
        let rest := cell_src_dst rnd_src rnd_dst ++ cell_print_src_h in
        (number_of_nodes g = 34%nat →
         ∃ g', run (notebook1 read_csv ++ rest) initial_state
               = ({| vars := <["g" := VGraph g']> (vars st);
                     out := out st ++ [VSummary (summarize g');
                                       VTensor (randn rnd_src 34 4)] |}, None)
             ∧ ndata g' = <["dst_h" := randn rnd_dst 34 7]>
                            (<["src_h" := randn rnd_src 34 4]> (ndata g))
             ∧ edata g' = edata g
             ∧ nodes g' = nodes g ∧ edges g' = edges g)
        ∧ (number_of_nodes g ≠ 34%nat →
           run (notebook1 read_csv ++ rest) initial_state = (st, Some DGLError)).
Proof.
  intros Hnodes Hedges Hsrc Hdst Hweight Hage Hclub Hlen Hpos Htage Htw
    Hrows_age Hrows_club Hrows_w Heleven.
  destruct (notebook1_run read_csv nodes_data edges_data src dst age_col club_col
              weight_col age weight Hnodes Hedges Hsrc Hdst Hweight Hage Hclub
              Hlen Hpos Htage Htw Hrows_age Hrows_club Hrows_w Heleven)
    as (st & g & oh & Hrun & Hg & Hn & Hs & Hd & Hoh & Hnd & Hed & Hout & Hlast).
  exists st, g, oh.
  do 10 (split; [assumption |]).
  intros rnd_src rnd_dst rest.
  assert (Hgraph : get_graph "g" (vars st) = Ok g).
  { unfold get_graph, lookup_var. rewrite Hg. reflexivity. }
  destruct (src_dst_cells_run rnd_src rnd_dst st g Hgraph) as [Hruns Hfails].
  rewrite (run_app _ _ _ _ Hrun). split.
  - intros H34. destruct (Hruns H34) as (g' & Hrest & Hnd' & Hed' & Hn' & He' & _).
    exists g'. repeat split; assumption.
  - exact Hfails.
Qed.

End Notebook1Runs.

Lemma notebook1_completes_witness :
  ∃ (st : state Z) (g : DGLGraph Z),
    run (notebook1 IntKernels.zachery_files) initial_state = (st, None)
    ∧ vars st !! "g" = Some (VGraph g)
    ∧ number_of_nodes g = 34%nat
    ∧ edata g = <["weight" := FloatVec (replicate 156 1)]> ∅
    ∧ length (out st) = 13%nat.
Proof.
  destruct (notebook1_completes IntKernels.zachery_files
              (nodes_csv (replicate 34 30)) (edges_csv (replicate 156 1))
              zachery_src zachery_dst
              (IntCol (replicate 34 30)) (StrCol zachery_club)
              (FloatCol (replicate 156 1))
              (LongVec (replicate 34 30)) (FloatVec (replicate 156 1)))
    as (st & g & oh & Hrun & Hg & Hn & _ & _ & _ & _ & He & Hout & _ & _);
    try (vm_compute; reflexivity).
  - apply (bool_decide_unpack _). vm_compute. exact I.
  - vm_compute. lia.
  - exists st, g. split; [exact Hrun |]. split; [exact Hg |].
    split; [exact Hn |]. split; [exact He | exact Hout].
Defined.

(** ** The second notebook on graphs that are too small *)

(** X8: the labelled nodes are fixed to 0 and 33: on a graph whose [club]
    feature has fewer than 34 rows the notebook stops with [IndexError] at
    [labels[labeled_nodes]], before any model is built, and without a
    [club] feature it stops with [KeyError]. *)
Theorem notebook2_needs_34_labels {F : Type} `{!FloatOps F} `{!Kernels (F:=F)}
    (g : DGLGraph F) :
  (ndata g !! "club" = None → notebook2 g = Raise (KeyError "club"))
  ∧ (∀ labels, ndata g !! "club" = Some labels → (rows labels < 34)%nat →
       setup g = Raise IndexError ∧ train g = Raise IndexError
       ∧ notebook2 g = Raise IndexError).
Proof.
  split.
  - intros Hnone. unfold notebook2, train, setup. rewrite Hnone. reflexivity.
  - intros labels Hsome Hrows.
    assert (Hsetup : setup g = Raise IndexError).
    { unfold setup. rewrite Hsome. simpl. unfold labeled_nodes.
      rewrite tensor_index_short; [reflexivity | lia | lia | right; lia]. }
    split; [exact Hsetup |].
    unfold notebook2, train. rewrite Hsetup. split; reflexivity.
Qed.

Lemma notebook2_needs_34_labels_witness :
  notebook2 IntKernels.tiny_graph = Raise IndexError.
Proof.
  destruct (notebook2_needs_34_labels IntKernels.tiny_graph) as [_ Hshort].
  apply (Hshort (LongVec [0; 1])); [reflexivity | simpl; lia].
Defined.

(** ** The initial node features *)

(** X9: [inputs] is the embedding's weight itself, so [xavier_uniform_(inputs)]
    re-initialises the embedding: after the setup every entry of the
    weight is the one drawn by [xavier_uniform_], and nothing of
    [nn.Embedding]'s own initialisation is left. *)
Theorem inputs_are_xavier {F : Type} `{!FloatOps F} `{!Kernels (F:=F)}
    (g : DGLGraph F) (labels : tensor F) (st : train_state) :
  setup g = Ok (labels, st) →
  inputs (mods st) = weight (node_embed (mods st))
  ∧ ∀ i j, (i < number_of_nodes g)%nat → (j < 5)%nat →
      inputs (mods st) !! i ≫= (λ row, row !! j) = Some (xavier i j).
Proof.
  unfold setup. intros H. apply bind_ok in H as (l & _ & H).
  apply bind_ok in H as (x & _ & H). injection H as _ <-.
  split; [reflexivity |]. intros i j Hi Hj.
  unfold inputs. cbn [mods node_embed set_weight weight Embedding_new].
  unfold xavier_uniform_. rewrite list_lookup_imap, list_lookup_fmap.
  rewrite lookup_seq_lt by exact Hi. simpl.
  do 5 (destruct j as [|j]; [reflexivity |]). lia.
Qed.

Lemma inputs_are_xavier_witness :
  ∃ (labels : tensor Z) (st : train_state),
    setup IntKernels.zachery_graph = Ok (labels, st)
    ∧ inputs (mods st) !! 33%nat ≫= (λ row, row !! 4%nat) = Some (xavier 33 4).
Proof.
  destruct (is_ok_inv (setup IntKernels.zachery_graph)) as [[labels st] Hsetup];
    [vm_compute; reflexivity |].
  exists labels, st. split; [exact Hsetup |].
  destruct (inputs_are_xavier _ _ _ Hsetup) as [_ Hentry].
  apply Hentry; vm_compute; lia.
Defined.

(** ** The log of a training run *)

Section TrainingLog.
Context {F : Type} `{!FloatOps F} `{!Kernels (F:=F)}.

(** After [k] epochs there are [k] stored logits, each with a loss, and
    every printed line carries the loss of the logits stored for its
    epoch. *)
Lemma training_log_step (g : DGLGraph F) (labels : tensor F) (n k : nat)
    (st st' : train_state) :
  length (all_logits st) = k →
  Forall (λ lg, is_ok (training_loss lg labels) = true) (all_logits st) →
  (∀ e loss, (e, loss) ∈ losses st →
     (e < k)%nat ∧ (e mod 5 = 0)%nat
     ∧ ∃ lg, all_logits st !! e = Some lg ∧ training_loss lg labels = Ok loss) →
  for_range (epoch g labels) (seq k n) st = Ok st' →
  length (all_logits st') = (k + n)%nat
  ∧ Forall (λ lg, is_ok (training_loss lg labels) = true) (all_logits st')
  ∧ (∀ e loss, (e, loss) ∈ losses st' →
       (e < k + n)%nat ∧ (e mod 5 = 0)%nat
       ∧ ∃ lg, all_logits st' !! e = Some lg ∧ training_loss lg labels = Ok loss).
Proof.
  revert k st. induction n as [|n IH]; intros k st Hlen Hall Hlosses; simpl.
  - intros [= <-]. rewrite Nat.add_0_r. auto.
  - destruct (epoch g labels k st) as [st1|err] eqn:Hepoch; simpl; [| discriminate].
    intros Hrest.
    apply epoch_inv in Hepoch as (loss & Hloss & _ & _ & Hlogits & _ & Hprinted).
    replace (k + S n)%nat with (S k + n)%nat by lia.
    apply (IH (S k) st1); [| | | exact Hrest].
    + rewrite Hlogits, length_app. simpl. lia.
    + rewrite Hlogits. apply Forall_app. split; [exact Hall |].
      constructor; [rewrite Hloss; reflexivity | constructor].
    + intros e l Hin. rewrite Hlogits.
      assert (Hold : (e, l) ∈ losses st →
                     (e < S k)%nat ∧ (e mod 5 = 0)%nat
                     ∧ ∃ lg, (all_logits st ++ [GraphSAGE_forward (net (mods st)) g
                                                   (inputs (mods st))]) !! e = Some lg
                             ∧ training_loss lg labels = Ok l).
      { intros Hin0. destruct (Hlosses e l Hin0) as (He & Hmod & lg & Hlg & Hl).
        split; [lia |]. split; [exact Hmod |]. exists lg.
        split; [rewrite lookup_app_l by lia; exact Hlg | exact Hl]. }
      rewrite Hprinted in Hin.
      destruct (Nat.eqb_spec (k mod 5) 0) as [Hk | Hk]; [| exact (Hold Hin)].
      apply elem_of_app in Hin as [Hin | Hin]; [exact (Hold Hin) |].
      apply list_elem_of_singleton in Hin. injection Hin as -> ->.
      split; [lia |]. split; [exact Hk |]. eexists.
      split; [rewrite <- Hlen; apply list_lookup_middle; reflexivity | exact Hloss].
Qed.

Lemma train_log (g : DGLGraph F) (labels : tensor F) (st : train_state) :
  train g = Ok (labels, st) →
  Forall (λ lg, is_ok (training_loss lg labels) = true) (all_logits st).
Proof.
  unfold train. intros H. apply bind_ok in H as ([labels0 st0] & Hsetup & H).
  apply bind_ok in H as (st1 & Hloop & H). injection H as <- <-.
  unfold setup in Hsetup. apply bind_ok in Hsetup as (l & _ & Hsetup).
  apply bind_ok in Hsetup as (x & _ & Hsetup). injection Hsetup as <- <-.
  pose proof (λ H1 H2 H3, training_log_step g l 100 0 _ st1 H1 H2 H3 Hloop) as Hinv.
  destruct Hinv as (_ & Hall & _); [reflexivity | constructor | | exact Hall].
  simpl. intros e loss Hin. inversion Hin.
Qed.

(** X10: every line printed by the training loop belongs to an epoch below 100
    that is divisible by five, and the loss it shows is the loss of the
    logits kept in [all_logits] for that epoch: the logits computed before
    the optimizer step of the epoch. *)
Theorem printed_losses_match_logits (g : DGLGraph F) (labels : tensor F)
    (st : train_state) :
  train g = Ok (labels, st) →
  ∀ e loss, (e, loss) ∈ losses st →
    (e < 100)%nat ∧ (e mod 5 = 0)%nat
    ∧ ∃ lg, all_logits st !! e = Some lg ∧ training_loss lg labels = Ok loss.
Proof.
  unfold train. intros H. apply bind_ok in H as ([labels0 st0] & Hsetup & H).
  apply bind_ok in H as (st1 & Hloop & H). injection H as <- <-.
  unfold setup in Hsetup. apply bind_ok in Hsetup as (l & _ & Hsetup).
  apply bind_ok in Hsetup as (x & _ & Hsetup). injection Hsetup as <- <-.
  pose proof (λ H1 H2 H3, training_log_step g l 100 0 _ st1 H1 H2 H3 Hloop) as Hinv.
  destruct Hinv as (_ & _ & Hlosses); [reflexivity | constructor | | exact Hlosses].
  simpl. intros e loss Hin. inversion Hin.
Qed.

End TrainingLog.

Lemma printed_losses_match_logits_witness :
  ∃ (labels : tensor Z) (st : train_state),
    train IntKernels.zachery_graph = Ok (labels, st)
    ∧ ∀ e loss, (e, loss) ∈ losses st →
        ∃ lg, all_logits st !! e = Some lg ∧ training_loss lg labels = Ok loss.
Proof.
  destruct (is_ok_inv (train IntKernels.zachery_graph)) as [[labels st] Htrain];
    [vm_compute; reflexivity |].
  exists labels, st. split; [exact Htrain |].
  intros e loss Hin.
  destruct (printed_losses_match_logits _ _ _ Htrain e loss Hin) as (_ & _ & H).
  exact H.
Defined.

(** ** Drawing the epochs *)

Section DrawFacts.
Context {F : Type} `{!FloatOps F} `{!Kernels (F:=F)}.
Variable fnonzero : F → bool.
Variable nx_draw : DGLGraph F → gmap Z (list F) → list string → result unit.

Lemma for_range_total_in {S} (body : nat → S → result S) (es : list nat) (st : S) :
  (∀ e s, e ∈ es → ∃ s', body e s = Ok s') → ∃ st', for_range body es st = Ok st'.
Proof.
  revert st. induction es as [|e es IH]; intros st Htot; simpl; [eauto |].
  destruct (Htot e st) as [st1 ->]; [left |]. simpl.
  apply IH. intros e' s He'. apply Htot. right. exact He'.
Qed.

Lemma mapM_total_in {A B} (f : A → result B) (l : list A) :
  (∀ a, a ∈ l → ∃ b, f a = Ok b) → ∃ bs, mapM f l = Ok bs.
Proof.
  induction l as [|a l IH]; intros Htot; simpl; [eauto |].
  destruct (Htot a) as [b ->]; [left |]. simpl.
  destruct IH as [bs ->]; [intros a' Ha'; apply Htot; right; exact Ha' |].
  simpl. eauto.
Qed.

(** The loop of [draw] over the nodes [k .. k + n - 1]: it appends one
    colour per node and sets one position per node, and touches no other
    position. *)
Lemma draw_nodes_spec (al : list (list (list F))) (labels : tensor F) (i : Z)
    (pred : list (list F)) (n k : nat)
    (pos0 pos1 : gmap Z (list F)) (col0 col1 : list string) :
  index_one al i = Ok pred →
  for_range (draw_node fnonzero al labels i) (seq k n) (pos0, col0) = Ok (pos1, col1) →
  length col1 = (length col0 + n)%nat
  ∧ (∀ j, (j < length col0)%nat → col1 !! j = col0 !! j)
  ∧ (∀ z, z < Z.of_nat k ∨ Z.of_nat (k + n) ≤ z → pos1 !! z = pos0 !! z)
  ∧ (∀ j, (j < n)%nat →
       ∃ p cls, pred !! (k + j)%nat = Some p
         ∧ label_truth fnonzero labels (Z.of_nat (k + j)) = Ok cls
         ∧ pos1 !! Z.of_nat (k + j) = Some p
         ∧ col1 !! (length col0 + j)%nat
           = Some (if (cls : bool) then cls1color else cls2color)).
Proof.
  intros Hpred. revert k pos0 col0.
  induction n as [|n IH]; intros k pos0 col0; simpl.
  - intros [= <- <-]. split; [lia |]. split; [reflexivity |].
    split; [reflexivity |]. intros j Hj. lia.
  - destruct (draw_node fnonzero al labels i k (pos0, col0)) as [[pos' col']|]
      eqn:Hnode; simpl; [| discriminate].
    unfold draw_node in Hnode. rewrite Hpred in Hnode. simpl in Hnode.
    destruct (index_one pred (Z.of_nat k)) as [p|] eqn:Hp;
      simpl in Hnode; [| discriminate].
    destruct (label_truth fnonzero labels (Z.of_nat k)) as [cls|] eqn:Hcls;
      simpl in Hnode; [| discriminate].
    injection Hnode as <- <-.
    intros Hrest. apply IH in Hrest as (Hlen & Hcols & Hframe & Hnodes).
    rewrite length_app in Hlen, Hcols, Hnodes. simpl in Hlen, Hcols, Hnodes.
    apply index_one_inv in Hp; [| lia]. rewrite Nat2Z.id in Hp.
    split; [lia |]. split.
    { intros j Hj. rewrite Hcols by lia. apply lookup_app_l. exact Hj. }
    split.
    { intros z Hz. rewrite Hframe by lia. apply lookup_insert_ne. lia. }
    intros [|j] Hj.
    + rewrite !Nat.add_0_r. exists p, cls.
      split; [exact Hp |]. split; [exact Hcls |].
      split; [rewrite Hframe by lia; apply lookup_insert_eq |].
      rewrite Hcols by lia. apply list_lookup_middle. reflexivity.
    + destruct (Hnodes j) as (p' & cls' & H1 & H2 & H3 & H4); [lia |].
      replace (k + S j)%nat with (S k + j)%nat by lia.
      replace (length col0 + S j)%nat with (length col0 + 1 + j)%nat by lia.
      exists p', cls'. repeat split; assumption.
Qed.

(** A call of [draw] that returns has read [all_logits[i]] and every
    label, and [nx.draw] has drawn the positions and colours it built. *)
Lemma draw_inv (nx_G : DGLGraph F) (all_logits : list (list (list F)))
    (labels : tensor F) (i : Z) (fr : frame F) :
  draw fnonzero nx_draw nx_G all_logits labels i = Ok fr →
  ∃ pred, index_one all_logits i = Ok pred
    ∧ title fr = i
    ∧ nx_draw nx_G (pos fr) (node_color fr) = Ok tt
    ∧ (∀ v, (v < 34)%nat →
         ∃ p cls, pred !! v = Some p
           ∧ pos fr !! Z.of_nat v = Some p
           ∧ label_truth fnonzero labels (Z.of_nat v) = Ok cls
           ∧ node_color fr !! v
             = Some (if (cls : bool) then cls1color else cls2color)).
Proof.
  unfold draw. intros H. apply bind_ok in H as ([pos1 col1] & Hloop & H).
  apply bind_ok in H as ([] & Hdrawn & H).
  injection H as <-. cbn [title pos node_color fst snd] in *.
  destruct (index_one all_logits i) as [pred|err] eqn:Hpred.
  2:{ unfold range in Hloop. simpl in Hloop. unfold draw_node in Hloop.
      rewrite Hpred in Hloop. discriminate. }
  exists pred. split; [reflexivity |]. split; [reflexivity |].
  split; [exact Hdrawn |].
  destruct (draw_nodes_spec all_logits labels i pred 34 0 ∅ pos1 [] col1 Hpred Hloop)
    as (_ & _ & _ & Hnodes).
  intros v Hv. destruct (Hnodes v Hv) as (p & cls & H1 & H2 & H3 & H4).
  exists p, cls. repeat split; assumption.
Qed.

(** X13: what [draw(i)] plots: the title is the epoch number; every node from 0
    to 33, and no other, is placed at its row of [all_logits[i]]; there
    are 34 colours and node [v] is cyan when [labels[v]] is true (not
    zero) and magenta otherwise; and these positions and colours are what
    [nx.draw] was called with, and drew. *)
Theorem draw_spec (nx_G : DGLGraph F) (all_logits : list (list (list F)))
    (labels : tensor F) (i : Z) (fr : frame F) :
  draw fnonzero nx_draw nx_G all_logits labels i = Ok fr →
  ∃ pred, index_one all_logits i = Ok pred
    ∧ title fr = i
    ∧ length (node_color fr) = 34%nat
    ∧ (∀ z, z < 0 ∨ 34 ≤ z → pos fr !! z = None)
    ∧ (∀ v, (v < 34)%nat →
         ∃ p cls, pred !! v = Some p
           ∧ pos fr !! Z.of_nat v = Some p
           ∧ label_truth fnonzero labels (Z.of_nat v) = Ok cls
           ∧ node_color fr !! v
             = Some (if (cls : bool) then "#00FFFF" else "#FF00FF")%string)
    ∧ nx_draw nx_G (pos fr) (node_color fr) = Ok tt.
Proof.
  unfold draw. intros H. apply bind_ok in H as ([pos1 col1] & Hloop & H).
  apply bind_ok in H as ([] & Hdrawn & H).
  injection H as <-. cbn [title pos node_color fst snd] in *.
  destruct (index_one all_logits i) as [pred|err] eqn:Hpred.
  2:{ unfold range in Hloop. simpl in Hloop. unfold draw_node in Hloop.
      rewrite Hpred in Hloop. discriminate. }
  exists pred. split; [reflexivity |]. split; [reflexivity |].
  destruct (draw_nodes_spec all_logits labels i pred 34 0 ∅ pos1 [] col1 Hpred Hloop)
    as (Hlen & _ & Hframe & Hnodes).
  split; [exact Hlen |]. split.
  { intros z Hz. rewrite Hframe by (simpl; lia). apply lookup_empty. }
  split; [| exact Hdrawn].
  intros v Hv. destruct (Hnodes v Hv) as (p & cls & H1 & H2 & H3 & H4).
  exists p, cls. repeat split; assumption.
Qed.

(** On a graph of 34 nodes, with 34 rows of two logits and 34 labels,
    [draw] returns, given that [nx.draw] draws what has a position. *)
Lemma draw_total (nx_G : DGLGraph F) (all_logits : list (list (list F)))
    (lv : list Z) (i : Z) (pred : list (list F)) :
  nx_draw_draws nx_draw → number_of_nodes nx_G = 34%nat →
  index_one all_logits i = Ok pred →
  (34 ≤ length pred)%nat → Forall (λ row, length row = 2%nat) pred →
  (34 ≤ length lv)%nat →
  ∃ fr, draw fnonzero nx_draw nx_G all_logits (LongVec lv) i = Ok fr.
Proof.
  intros Hnx Hn Hpred Hrows Hcols Hlabels. unfold draw.
  destruct (for_range_total_in (draw_node fnonzero all_logits (LongVec lv) i)
              (range 34) (∅, [])) as [[pos1 col1] Hloop].
  { intros v s Hv. apply elem_of_seq in Hv. unfold draw_node. rewrite Hpred. simpl.
    destruct (lookup_lt_is_Some_2 pred v) as [p Hp]; [lia |].
    destruct (lookup_lt_is_Some_2 lv v) as [c Hc]; [lia |].
    rewrite (index_one_ok pred (Z.of_nat v) p), (index_one_ok lv (Z.of_nat v) c);
      rewrite ?Nat2Z.id; try assumption; try lia.
    simpl. eauto. }
  rewrite Hloop. simpl.
  destruct (draw_nodes_spec all_logits (LongVec lv) i pred 34 0 ∅ pos1 [] col1
              Hpred Hloop) as (Hlen & _ & _ & Hnodes).
  rewrite (Hnx nx_G pos1 col1); [simpl; eauto | | rewrite Hn; exact Hlen].
  rewrite Hn. intros v Hv.
  destruct (Hnodes v Hv) as (p & cls & Hp & _ & Hpos & _). simpl in Hp, Hpos.
  exists p. split; [exact Hpos |].
  exact (proj1 (Forall_lookup _ _) Hcols _ _ Hp).
Qed.

(** Every logits tensor kept by a training run has one row per node and
    two columns. *)
Lemma train_logits_shape (g : DGLGraph F) (labels : tensor F) (st : train_state)
    (i : nat) (lg : list (list F)) :
  SAGEConv_shapes → train g = Ok (labels, st) → all_logits st !! i = Some lg →
  length lg = number_of_nodes g ∧ Forall (λ row, length row = 2%nat) lg.
Proof.
  intros Hshape Htrain Hi.
  destruct (train_trace g labels st Htrain) as (st0 & Hsetup & _ & Hlen & _ & _ & Hnth).
  apply lookup_lt_Some in Hi as Hlt. rewrite Hlen in Hlt.
  destruct (Hnth i Hlt) as (st_e & Hpre & Hlg).
  rewrite Hi in Hlg. injection Hlg as ->.
  assert (Hdims : out_feats (conv2 (net (mods st_e))) = 2%nat).
  { eapply (for_range_invariant (epoch g labels)
              (λ s, out_feats (conv2 (net (mods s))) = 2%nat)); [| | exact Hpre].
    - intros e s s' Hs He. rewrite (epoch_out_feats _ _ _ _ _ He). exact Hs.
    - eapply setup_out_feats, Hsetup. }
  destruct (forward_shape (net (mods st_e)) g (inputs (mods st_e)) Hshape) as [H1 H2].
  rewrite Hdims in H2. split; assumption.
Qed.

(** X14: after a training run on a graph of 34 nodes the whole animation can
    be rendered, given layers that return one row per node and an
    [nx.draw] that draws every node that has a two-dimensional position:
    there is one frame per epoch, 100 in all; frame [i] is titled [i] and
    places every node at its logits of epoch [i]; in every frame node [v]
    is cyan when its club label is 1 (not zero) and magenta when it is 0;
    and [nx.draw] drew each frame. *)
Theorem animation_after_training (g : DGLGraph F) (labels : tensor F)
    (st : train_state) :
  SAGEConv_shapes → nx_draw_draws nx_draw → number_of_nodes g = 34%nat →
  train g = Ok (labels, st) →
  ∃ (frames : list (frame F)) (lv : list Z),
    labels = LongVec lv
    ∧ animation fnonzero nx_draw g (all_logits st) labels = Ok frames
    ∧ length frames = 100%nat
    ∧ ∀ i fr, frames !! i = Some fr →
        title fr = Z.of_nat i
        ∧ nx_draw g (pos fr) (node_color fr) = Ok tt
        ∧ ∃ lg, all_logits st !! i = Some lg
          ∧ ∀ v, (v < 34)%nat →
              is_Some (lg !! v)
              ∧ pos fr !! Z.of_nat v = lg !! v
              ∧ ∃ c, lv !! v = Some c
                  ∧ node_color fr !! v
                    = Some (if (c =? 0)%Z then "#FF00FF" else "#00FFFF")%string.
Proof.
  intros Hshape Hnx Hn Htrain.
  destruct (train_trace g labels st Htrain) as (st0 & _ & _ & Hlen & _).
  pose proof (train_log g labels st Htrain) as Hall.
  assert (Hlabels : ∃ lv, labels = LongVec lv ∧ (34 ≤ length lv)%nat).
  { destruct (all_logits st) as [|lg0 rest] eqn:E; [discriminate |].
    apply Forall_cons in Hall as [H0 _].
    apply is_ok_inv in H0 as [loss H0].
    apply training_loss_inv in H0
      as (lv & r0 & r33 & l0 & l33 & -> & _ & _ & _ & Hl33 & _).
    exists lv. split; [reflexivity |]. apply lookup_lt_Some in Hl33. lia. }
  destruct Hlabels as (lv & -> & Hlv).
  assert (Hrows : ∀ i lg, all_logits st !! i = Some lg →
                  (34 ≤ length lg)%nat ∧ Forall (λ row, length row = 2%nat) lg).
  { intros i lg Hi.
    destruct (train_logits_shape g _ st i lg Hshape Htrain Hi) as [H1 H2].
    split; [lia | exact H2]. }
  assert (Hidx : ∀ i, (i < length (all_logits st))%nat →
                 ∃ lg, all_logits st !! i = Some lg
                       ∧ index_one (all_logits st) (Z.of_nat i) = Ok lg).
  { intros i Hi. destruct (lookup_lt_is_Some_2 (all_logits st) i Hi) as [lg Hlg].
    exists lg. split; [exact Hlg |]. apply index_one_ok; [lia |].
    rewrite Nat2Z.id. exact Hlg. }
  unfold animation.
  destruct (mapM_total_in
              (λ i : nat, draw fnonzero nx_draw g (all_logits st) (LongVec lv)
                            (Z.of_nat i))
              (range (length (all_logits st)))) as [frames Hframes].
  { intros i Hi. apply elem_of_seq in Hi.
    destruct (Hidx i) as (lg & Hlg & Hone); [lia |].
    destruct (Hrows i lg Hlg) as [Hr1 Hr2].
    eapply draw_total; eassumption. }
  exists frames, lv. split; [reflexivity |]. split; [exact Hframes |].
  pose proof (mapM_length _ _ _ Hframes) as Hflen.
  unfold range in Hflen. rewrite length_seq in Hflen.
  split; [congruence |].
  intros i fr Hfr.
  destruct (mapM_lookup _ _ _ i Hframes) as [[Hnone _] | (a & b & Ha & Hb & Hdraw)];
    [congruence |].
  rewrite Hfr in Hb. injection Hb as <-.
  unfold range in Ha. apply lookup_seq in Ha as [-> Hi]. simpl in Hdraw.
  destruct (draw_inv _ _ _ _ _ Hdraw) as (pred & Hpred & Htitle & Hdrawn & Hnodes).
  split; [exact Htitle |]. split; [exact Hdrawn |].
  destruct (Hidx i Hi) as (lg & Hlg & Hone).
  rewrite Hone in Hpred. injection Hpred as <-.
  exists lg. split; [exact Hlg |].
  intros v Hv. destruct (Hnodes v Hv) as (p & cls & Hp & Hpos & Hcls & Hcol).
  split; [rewrite Hp; eauto |]. split; [congruence |].
  simpl in Hcls.
  destruct (index_one lv (Z.of_nat v)) as [c|] eqn:Hc; [| discriminate].
  apply index_one_inv in Hc; [| lia]. rewrite Nat2Z.id in Hc.
  injection Hcls as <-. exists c. split; [exact Hc |].
  rewrite Hcol. destruct (c =? 0); reflexivity.
Qed.

End DrawFacts.

(** The stand-in for the plotting library draws every graph whose nodes
    all have a two-dimensional position and a colour. *)
Lemma nx_draw_check_draws : nx_draw_draws IntKernels.nx_draw_check.
Proof.
  intros G pos colors Hpos Hcol. unfold IntKernels.nx_draw_check.
  assert (Hnode : ∀ v, In v (nodes G) →
                  ∃ p, pos !! v = Some p ∧ length p = 2%nat).
  { intros v Hv. apply list_elem_of_In, list_elem_of_fmap in Hv as (i & -> & Hi).
    apply elem_of_seq in Hi. apply Hpos. unfold number_of_nodes. lia. }
  replace (forallb (λ v, bool_decide (is_Some (pos !! v))) (nodes G)) with true.
  2:{ symmetry. apply forallb_forall. intros v Hv.
      destruct (Hnode v Hv) as (p & Hp & _). apply bool_decide_eq_true.
      rewrite Hp. eauto. }
  replace (forallb (λ v, bool_decide (length <$> pos !! v = Some 2%nat)) (nodes G))
    with true.
  2:{ symmetry. apply forallb_forall. intros v Hv.
      destruct (Hnode v Hv) as (p & Hp & Hlen). apply bool_decide_eq_true.
      rewrite Hp. simpl. rewrite Hlen. reflexivity. }
  simpl. rewrite Hcol, Nat.eqb_refl. reflexivity.
Qed.

Lemma draw_spec_witness :
  ∃ fr : frame Z,
    draw (λ x, negb (x =? 0)) IntKernels.nx_draw_check IntKernels.zachery_graph
      [replicate 34 [1; 2]] (LongVec (replicate 34 1)) (-1)
    = Ok fr
    ∧ title fr = -1 ∧ length (node_color fr) = 34%nat.
Proof.
  destruct (is_ok_inv (draw (λ x, negb (x =? 0)) IntKernels.nx_draw_check
                         IntKernels.zachery_graph [replicate 34 [1; 2]]
                         (LongVec (replicate 34 1)) (-1))) as [fr Hdraw];
    [vm_compute; reflexivity |].
  destruct (draw_spec _ _ _ _ _ _ _ Hdraw) as (_ & _ & Htitle & Hlen & _).
  exists fr. split; [exact Hdraw |]. split; assumption.
Defined.

Lemma animation_after_training_witness :
  ∃ (labels : tensor Z) (st : train_state) (frames : list (frame Z)),
    train IntKernels.zachery_graph = Ok (labels, st)
    ∧ animation (λ x, negb (x =? 0)) IntKernels.nx_draw_check
        IntKernels.zachery_graph (all_logits st) labels = Ok frames
    ∧ length frames = 100%nat.
Proof.
  destruct (is_ok_inv (train IntKernels.zachery_graph)) as [[labels st] Htrain];
    [vm_compute; reflexivity |].
  destruct (animation_after_training (λ x, negb (x =? 0)) IntKernels.nx_draw_check
              IntKernels.zachery_graph labels st mean_conv_shapes nx_draw_check_draws)
    as (frames & lv & _ & Hframes & Hlen & _).
  - vm_compute. reflexivity.
  - exact Htrain.
  - exists labels, st, frames. split; [exact Htrain |]. split; assumption.
Defined.

(** A graph with a node that is given no position: on 35 nodes the
    stand-in, like networkx, raises. *)
Example draw_needs_a_position_per_node :
  draw (λ x, negb (x =? 0)) IntKernels.nx_draw_check
    {| num_nodes := 35; edge_src := []; edge_dst := []; ndata := ∅; edata := ∅ |}
    [replicate 35 [1; 2]] (LongVec (replicate 35 1)) 0
  = Raise NetworkXError.
Proof. vm_compute. reflexivity. Qed.

(** ** What the optimizer step changes *)

Section OptimizerFacts.
Context {F : Type} `{!FloatOps F} `{!Kernels (F:=F)}.

Lemma read_write_ne (m : modules) (r r' : param_ref) (v : list (list F)) :
  r ≠ r' → read_param (write_param m r v) r' = read_param m r'.
Proof.
  intros Hne. destruct r as [i | i |], r' as [j | j |]; simpl; try reflexivity.
  - apply list_lookup_insert_ne. congruence.
  - apply list_lookup_insert_ne. congruence.
  - congruence.
Qed.

Lemma read_write_eq (m : modules) (r : param_ref) (p v : list (list F)) :
  read_param m r = Some p → read_param (write_param m r v) r = Some v.
Proof.
  destruct r as [i | i |]; simpl; intros Hp.
  - apply list_lookup_insert_eq. eapply lookup_lt_Some, Hp.
  - apply list_lookup_insert_eq. eapply lookup_lt_Some, Hp.
  - reflexivity.
Qed.

Lemma same_layout_refl (m : modules (F:=F)) : same_layout m m.
Proof. repeat split. Qed.

Lemma same_layout_trans (m1 m2 m3 : modules (F:=F)) :
  same_layout m1 m2 → same_layout m2 m3 → same_layout m1 m3.
Proof.
  unfold same_layout. intros H12 H23.
  destruct H12 as (?&?&?&?&?&?&?&?&?&?), H23 as (?&?&?&?&?&?&?&?&?&?).
  repeat split; congruence.
Qed.

Lemma write_param_layout (m : modules) (r : param_ref) (v : list (list F)) :
  same_layout m (write_param m r v).
Proof.
  destruct r as [i | i |]; unfold same_layout; simpl;
    rewrite ?length_insert; repeat split.
Qed.

Lemma adam_steps_layout rate refs sts grads (m : modules (F:=F)) :
  same_layout m (adam_steps rate refs sts grads m).2.
Proof.
  revert sts m. induction refs as [|r refs IH]; intros [|s sts] m; simpl;
    try apply same_layout_refl.
  destruct (read_param m r) as [p|].
  - destruct (adam_step rate s p (grads r)) as [s' p'].
    specialize (IH sts (write_param m r p')).
    destruct (adam_steps rate refs sts grads (write_param m r p')) as [ss m'].
    simpl in *. eapply same_layout_trans; [apply write_param_layout | exact IH].
  - specialize (IH sts m).
    destruct (adam_steps rate refs sts grads m) as [ss m']. exact IH.
Qed.

(** A tensor the optimizer does not refer to is left as it is. *)
Lemma adam_steps_untouched rate refs sts grads (m : modules (F:=F)) (r : param_ref) :
  r ∉ refs → read_param (adam_steps rate refs sts grads m).2 r = read_param m r.
Proof.
  revert sts m. induction refs as [|r0 refs IH]; intros [|s sts] m Hnotin; simpl;
    try reflexivity.
  apply not_elem_of_cons in Hnotin as [Hne Hnotin].
  destruct (read_param m r0) as [p|].
  - destruct (adam_step rate s p (grads r0)) as [s' p'].
    specialize (IH sts (write_param m r0 p') Hnotin).
    destruct (adam_steps rate refs sts grads (write_param m r0 p')) as [ss m'].
    simpl in *. rewrite IH. apply read_write_ne. congruence.
  - specialize (IH sts m Hnotin).
    destruct (adam_steps rate refs sts grads m) as [ss m']. exact IH.
Qed.

(** A tensor the optimizer refers to (once) is replaced by Adam's update
    of it, computed with the state kept for it. *)
Lemma adam_steps_updates rate refs sts grads (m : modules (F:=F))
    (k : nat) (r : param_ref) s (p : list (list F)) :
  NoDup refs → refs !! k = Some r → sts !! k = Some s →
  read_param m r = Some p →
  read_param (adam_steps rate refs sts grads m).2 r
  = Some (adam_step rate s p (grads r)).2.
Proof.
  revert sts m k. induction refs as [|r0 refs IH]; intros sts m k Hnodup Hr Hs Hp;
    [discriminate |].
  destruct sts as [|s0 sts]; [destruct k; discriminate |].
  apply NoDup_cons in Hnodup as [Hnotin Hnodup].
  destruct k as [|k]; simpl in Hr, Hs.
  - injection Hr as ->. injection Hs as ->. simpl. rewrite Hp.
    destruct (adam_step rate s p (grads r)) as [s' p'] eqn:Hstep.
    pose proof (adam_steps_untouched rate refs sts grads (write_param m r p') r Hnotin)
      as Hkeep.
    destruct (adam_steps rate refs sts grads (write_param m r p')) as [ss m'].
    simpl in *. rewrite Hkeep. eapply read_write_eq, Hp.
  - assert (Hne : r0 ≠ r).
    { intros ->. apply Hnotin. eapply list_elem_of_lookup_2, Hr. }
    simpl. destruct (read_param m r0) as [p0|].
    + destruct (adam_step rate s0 p0 (grads r0)) as [s' p'].
      specialize (IH sts (write_param m r0 p') k Hnodup Hr Hs).
      rewrite read_write_ne in IH by exact Hne. specialize (IH Hp).
      destruct (adam_steps rate refs sts grads (write_param m r0 p')) as [ss m'].
      exact IH.
    + specialize (IH sts m k Hnodup Hr Hs Hp).
      destruct (adam_steps rate refs sts grads m) as [ss m']. exact IH.
Qed.

Lemma GraphSAGE_parameters_NoDup (n : GraphSAGE (F:=F)) :
  NoDup (GraphSAGE_parameters n ++ [EmbedWeight]).
Proof.
  unfold GraphSAGE_parameters, SAGEConv_parameters.
  rewrite <- app_assoc. apply NoDup_app. split; [| split].
  - apply NoDup_fmap_2; [intros i j [= ->]; reflexivity | apply NoDup_seq].
  - intros r Hr Hr'. apply list_elem_of_fmap in Hr as (i & -> & _).
    apply elem_of_app in Hr' as [Hr' | Hr'].
    + apply list_elem_of_fmap in Hr' as (j & Hj & _). discriminate.
    + apply list_elem_of_singleton in Hr'. discriminate.
  - apply NoDup_app. split; [| split].
    + apply NoDup_fmap_2; [intros i j [= ->]; reflexivity | apply NoDup_seq].
    + intros r Hr Hr'. apply list_elem_of_fmap in Hr as (i & -> & _).
      apply list_elem_of_singleton in Hr'. discriminate.
    + apply NoDup_singleton.
Qed.

Lemma GraphSAGE_parameters_valid (m : modules (F:=F)) (r : param_ref) :
  r ∈ GraphSAGE_parameters (net m) ++ [EmbedWeight] → is_Some (read_param m r).
Proof.
  unfold GraphSAGE_parameters, SAGEConv_parameters.
  rewrite !elem_of_app, !list_elem_of_fmap, list_elem_of_singleton.
  intros [[(i & -> & Hi) | (i & -> & Hi)] | ->]; simpl.
  - apply lookup_lt_is_Some_2. apply elem_of_seq in Hi. lia.
  - apply lookup_lt_is_Some_2. apply elem_of_seq in Hi. lia.
  - eauto.
Qed.

Lemma GraphSAGE_parameters_layout (m m' : modules (F:=F)) :
  same_layout m m' → GraphSAGE_parameters (net m') = GraphSAGE_parameters (net m).
Proof.
  intros (_ & _ & _ & _ & _ & _ & H1 & H2 & _).
  unfold GraphSAGE_parameters, SAGEConv_parameters. rewrite H1, H2. reflexivity.
Qed.

(** One epoch keeps the layout of the modules and what the optimizer
    refers to. *)
Lemma epoch_optimizer_layout (g : DGLGraph F) (labels : tensor F)
    (e : nat) (st st' : train_state) :
  optimizer_covers_all st → epoch g labels e st = Ok st' →
  optimizer_covers_all st'
  ∧ same_layout (mods st) (mods st')
  ∧ param_groups (optimizer st') = param_groups (optimizer st)
  ∧ lr (optimizer st') = lr (optimizer st).
Proof.
  intros [Hrefs Hlen] Hepoch.
  apply epoch_inv in Hepoch as (_ & _ & Hmods & Hopt & _).
  unfold Adam_step in Hmods, Hopt.
  set (grads := autograd _ (mods st)) in *.
  pose proof (adam_steps_layout (lr (optimizer st)) (param_groups (optimizer st))
                (opt_state (optimizer st)) grads (mods st)) as Hlayout.
  pose proof (adam_steps_length (lr (optimizer st)) (param_groups (optimizer st))
                (opt_state (optimizer st)) grads (mods st)) as Hlen'.
  destruct (adam_steps (lr (optimizer st)) (param_groups (optimizer st))
              (opt_state (optimizer st)) grads (mods st)) as [ss m'].
  simpl in *. unfold optimizer_covers_all. rewrite Hmods, Hopt. simpl.
  split.
  { split; [rewrite (GraphSAGE_parameters_layout _ _ Hlayout); exact Hrefs | congruence]. }
  split; [exact Hlayout |]. split; reflexivity.
Qed.

(** X11: in every epoch the optimizer step replaces each tensor of the network
    and the embedding's weight by Adam's update of it with the gradient of
    the epoch's loss; the layout of the modules (dimensions, aggregators,
    number of tensors), the references held by the optimizer and the
    learning rate stay as they are. *)
Theorem epoch_updates_every_parameter (g : DGLGraph F) (labels : tensor F)
    (e : nat) (st st' : train_state) :
  optimizer_covers_all st → epoch g labels e st = Ok st' →
  optimizer_covers_all st'
  ∧ same_layout (mods st) (mods st')
  ∧ param_groups (optimizer st') = param_groups (optimizer st)
  ∧ lr (optimizer st') = lr (optimizer st)
  ∧ ∀ r, r ∈ GraphSAGE_parameters (net (mods st)) ++ [EmbedWeight] →
      ∃ s p, In s (opt_state (optimizer st))
        ∧ read_param (mods st) r = Some p
        ∧ read_param (mods st') r
          = Some (adam_step (lr (optimizer st)) s p
                    (autograd
                       (λ m, training_loss (GraphSAGE_forward (net m) g (inputs m))
                               labels)
                       (mods st) r)).2.
Proof.
  intros [Hrefs Hlen] Hepoch.
  apply epoch_inv in Hepoch as (_ & _ & Hmods & Hopt & _).
  unfold Adam_step in Hmods, Hopt.
  set (grads := autograd _ (mods st)) in *.
  pose proof (adam_steps_layout (lr (optimizer st)) (param_groups (optimizer st))
                (opt_state (optimizer st)) grads (mods st)) as Hlayout.
  pose proof (adam_steps_length (lr (optimizer st)) (param_groups (optimizer st))
                (opt_state (optimizer st)) grads (mods st)) as Hlen'.
  pose proof (λ k r s p, adam_steps_updates (lr (optimizer st))
                (param_groups (optimizer st)) (opt_state (optimizer st)) grads
                (mods st) k r s p) as Hupd.
  destruct (adam_steps (lr (optimizer st)) (param_groups (optimizer st))
              (opt_state (optimizer st)) grads (mods st)) as [ss m'].
  simpl in *. unfold optimizer_covers_all. rewrite Hmods, Hopt. simpl.
  split.
  { split; [rewrite (GraphSAGE_parameters_layout _ _ Hlayout); exact Hrefs | congruence]. }
  split; [exact Hlayout |]. split; [reflexivity |]. split; [reflexivity |].
  intros r Hr.
  destruct (GraphSAGE_parameters_valid (mods st) r Hr) as [p Hp].
  rewrite <- Hrefs in Hr.
  apply list_elem_of_lookup_1 in Hr as [k Hk].
  destruct (lookup_lt_is_Some_2 (opt_state (optimizer st)) k) as [s Hs].
  { rewrite Hlen. eapply lookup_lt_Some, Hk. }
  exists s, p. split; [apply list_elem_of_In; eapply list_elem_of_lookup_2, Hs |].
  split; [exact Hp |].
  apply (Hupd k r s p); [| exact Hk | exact Hs | exact Hp].
  rewrite Hrefs. apply GraphSAGE_parameters_NoDup.
Qed.

Lemma setup_covers_all (g : DGLGraph F) (labels : tensor F) (st : train_state) :
  setup g = Ok (labels, st) → optimizer_covers_all st ∧ notebook_dimensions g st.
Proof.
  unfold setup. intros H. apply bind_ok in H as (l & _ & H).
  apply bind_ok in H as (x & _ & H). injection H as _ <-.
  split.
  - split; [reflexivity | apply length_replicate].
  - unfold notebook_dimensions. simpl. repeat split.
Qed.

(** X12: a completed training run leaves the model as the notebook built it, up
    to the values of its tensors: the layers keep the dimensions 5 to 16
    and 16 to 2 with the mean aggregator and their number of tensors, the
    embedding keeps one row index per node and dimension 5, and the
    optimizer still refers to all of them with learning rate 0.01. *)
Theorem training_keeps_the_model_layout (g : DGLGraph F) (labels : tensor F)
    (st : train_state) :
  train g = Ok (labels, st) →
  optimizer_covers_all st ∧ notebook_dimensions g st.
Proof.
  unfold train. intros H. apply bind_ok in H as ([labels0 st0] & Hsetup & H).
  apply bind_ok in H as (st1 & Hloop & H). injection H as <- <-.
  apply setup_covers_all in Hsetup.
  eapply (for_range_invariant (epoch g labels0)
            (λ s, optimizer_covers_all s ∧ notebook_dimensions g s));
    [| exact Hsetup | exact Hloop].
  intros e s s' [Hcov Hdims] Hepoch.
  destruct (epoch_optimizer_layout g labels0 e s s' Hcov Hepoch)
    as (Hcov' & Hlayout & _ & Hlr).
  split; [exact Hcov' |].
  unfold notebook_dimensions, same_layout in *.
  destruct Hlayout as (?&?&?&?&?&?&?&?&?&?), Hdims as (?&?&?&?&?&?&?&?&?&?&?).
  repeat split; congruence.
Qed.

End OptimizerFacts.

Lemma epoch_updates_every_parameter_witness :
  ∃ st',
    epoch IntKernels.zachery_graph IntKernels.zachery_labels 0
      IntKernels.zachery_start = Ok st'
    ∧ optimizer_covers_all st'
    ∧ same_layout (mods IntKernels.zachery_start) (mods st').
Proof.
  destruct (is_ok_inv (epoch IntKernels.zachery_graph IntKernels.zachery_labels 0
                         IntKernels.zachery_start)) as [st' Hepoch];
    [vm_compute; reflexivity |].
  assert (Hcovers : optimizer_covers_all IntKernels.zachery_start)
    by (split; vm_compute; reflexivity).
  destruct (epoch_updates_every_parameter _ _ _ _ _ Hcovers Hepoch)
    as (Hcovers' & Hlayout & _).
  exists st'. split; [exact Hepoch |]. split; assumption.
Defined.

Lemma training_keeps_the_model_layout_witness :
  ∃ (labels : tensor Z) (st : train_state),
    train IntKernels.zachery_graph = Ok (labels, st)
    ∧ optimizer_covers_all st ∧ notebook_dimensions IntKernels.zachery_graph st.
Proof.
  destruct (is_ok_inv (train IntKernels.zachery_graph)) as [[labels st] Htrain];
    [vm_compute; reflexivity |].
  exists labels, st. split; [exact Htrain |].
  exact (training_keeps_the_model_layout _ _ _ Htrain).
Defined.

(** ** What the statements of the first notebook never do *)

Section Monotone.
Context {F : Type} `{!FloatOps F}.

Lemma assign_only_adds x (rhs : gmap string (pyobj F) → result (pyobj F))
    (st st' : state F) r :
  assign x rhs st = (st', r) →
  out st' = out st ∧ ∀ y, is_Some (vars st !! y) → is_Some (vars st' !! y).
Proof.
  unfold assign. destruct (rhs (vars st)) as [v|e]; intros [= <- <-]; simpl.
  - split; [reflexivity |]. intros y Hy.
    destruct (decide (x = y)) as [-> | Hne];
      [rewrite lookup_insert_eq; eauto | rewrite lookup_insert_ne by exact Hne; exact Hy].
  - split; [reflexivity | auto].
Qed.

Lemma print_only_adds (rhs : gmap string (pyobj F) → result (pyobj F))
    (st st' : state F) r :
  print rhs st = (st', r) →
  vars st' = vars st ∧ out st `prefix_of` out st'.
Proof.
  unfold print. destruct (rhs (vars st)) as [v|e]; intros [= <- <-]; simpl.
  - split; [reflexivity | apply prefix_app_r; reflexivity].
  - split; reflexivity.
Qed.

Lemma ndata_update_stmt_only_adds x keys (st st' : state F) r :
  ndata_update_stmt x keys st = (st', r) →
  out st' = out st ∧ ∀ y, is_Some (vars st !! y) → is_Some (vars st' !! y).
Proof.
  unfold ndata_update_stmt.
  match goal with |- context [match ?a with _ => _ end] => destruct a as [[g items]|e'] end.
  - destruct (ndata_update_stmt_aux items g) as [g' err].
    intros [= <- _]. simpl. split; [reflexivity |]. intros y Hy.
    destruct (decide (x = y)) as [-> | Hne];
      [rewrite lookup_insert_eq; eauto | rewrite lookup_insert_ne by exact Hne; exact Hy].
  - intros [= <- _]. split; [reflexivity | auto].
Qed.

Lemma notebook1_stmt_only_adds read_csv (s : stmt F) (st st' : state F) r :
  s ∈ notebook1 read_csv → s st = (st', r) →
  out st `prefix_of` out st'
  ∧ ∀ y, is_Some (vars st !! y) → is_Some (vars st' !! y).
Proof.
  intros Hin Hs.
  unfold notebook1, cell_nodes_data, cell_edges_data, cell_graph, cell_query,
    cell_age, cell_club, cell_weight in Hin. simpl in Hin.
  repeat (apply elem_of_cons in Hin as [-> | Hin]);
    try (inversion Hin; fail);
    unfold stmt_set_age, stmt_del_age, stmt_set_weight, stmt_update_club,
      update_graph, print_graph in Hs;
    first [ apply assign_only_adds in Hs as [-> Hvars]; split; [reflexivity | exact Hvars]
          | apply print_only_adds in Hs as [-> Hout]; split; [exact Hout | auto]
          | apply ndata_update_stmt_only_adds in Hs as [-> Hvars];
            split; [reflexivity | exact Hvars] ].
Qed.

(** X7: running any statements of the first notebook, in any order and from
    any namespace, whether the run completes or raises: what was printed
    stays printed, in order, and no variable that was bound becomes
    unbound (deleting a feature of the graph does not unbind [g]). *)
Theorem notebook1_only_adds read_csv (prog : list (stmt F)) (st st' : state F) r :
  (∀ s, s ∈ prog → s ∈ notebook1 read_csv) →
  run prog st = (st', r) →
  out st `prefix_of` out st'
  ∧ ∀ y, is_Some (vars st !! y) → is_Some (vars st' !! y).
Proof.
  revert st. induction prog as [|s prog IH]; intros st Hsub; simpl.
  - intros [= <- <-]. split; [reflexivity | auto].
  - destruct (s st) as [st1 [e|]] eqn:Hs.
    + intros [= <- <-].
      eapply notebook1_stmt_only_adds; [apply Hsub; left | exact Hs].
    + intros Hrest.
      destruct (notebook1_stmt_only_adds read_csv s st st1 None) as [Hout Hvars];
        [apply Hsub; left | exact Hs |].
      destruct (IH st1) as [Hout' Hvars'];
        [intros s' Hs'; apply Hsub; right; exact Hs' | exact Hrest |].
      split; [etrans; eassumption | auto].
Qed.

End Monotone.

Lemma notebook1_only_adds_witness :
  out IntKernels.tiny_state
    `prefix_of` out (run (notebook1 IntKernels.small_files) IntKernels.tiny_state).1
  ∧ ∀ y, is_Some (vars IntKernels.tiny_state !! y) →
         is_Some (vars (run (notebook1 IntKernels.small_files)
                          IntKernels.tiny_state).1 !! y).
Proof.
  apply (notebook1_only_adds IntKernels.small_files
           (notebook1 IntKernels.small_files) IntKernels.tiny_state _
           (run (notebook1 IntKernels.small_files) IntKernels.tiny_state).2).
  - intros s Hs. exact Hs.
  - apply surjective_pairing.
Defined.

(** ** A table without the edge columns *)

(** X2: when both tables are read but the edge table has no [Src] column, or
    has it but no [Dst] column, the run stops with [KeyError] for that
    column: the two tables were printed and no graph was built. *)
Theorem notebook1_missing_edge_column {F : Type} `{!FloatOps F}
    (read_csv : string → result (gmap string (column F)))
    (nodes_data edges_data : gmap string (column F)) :
  read_csv "data/nodes.csv" = Ok nodes_data →
  read_csv "data/edges.csv" = Ok edges_data →
  (edges_data !! "Src" = None →
   ∃ st, run (notebook1 read_csv) initial_state = (st, Some (KeyError "Src"))
         ∧ out st = [VFrame nodes_data; VFrame edges_data]
         ∧ vars st !! "g" = None)
  ∧ (is_Some (edges_data !! "Src") → edges_data !! "Dst" = None →
     ∃ st, run (notebook1 read_csv) initial_state = (st, Some (KeyError "Dst"))
           ∧ out st = [VFrame nodes_data; VFrame edges_data]
           ∧ vars st !! "g" = None).
Proof.
  intros Hnodes Hedges.
  assert (Hstart : ∀ rest,
            run (cell_nodes_data read_csv ++ cell_edges_data read_csv ++ rest)
                initial_state
            = run rest
                {| vars := <["edges_data" := VFrame edges_data]>
                             (<["nodes_data" := VFrame nodes_data]> ∅);
                   out := [VFrame nodes_data; VFrame edges_data] |}).
  { intros rest. unfold cell_nodes_data, cell_edges_data, initial_state. simpl app.
    erewrite run_cons_ok; [| apply assign_ok; rewrite Hnodes; reflexivity].
    cbn [vars out].
    erewrite run_cons_ok;
      [| apply print_ok; unfold lookup_var; cbn [vars];
         rewrite lookup_insert_eq; reflexivity].
    cbn [vars out].
    erewrite run_cons_ok; [| apply assign_ok; rewrite Hedges; reflexivity].
    cbn [vars out].
    erewrite run_cons_ok;
      [| apply print_ok; unfold lookup_var; cbn [vars];
         rewrite lookup_insert_eq; reflexivity].
    reflexivity. }
  unfold notebook1. rewrite Hstart. unfold cell_graph. simpl app.
  split.
  - intros Hsrc. eexists. split.
    { apply run_cons_raise, assign_raises.
      unfold get_frame, lookup_var. cbn [vars]. rewrite lookup_insert_eq. simpl.
      unfold getcol. rewrite Hsrc. reflexivity. }
    split; [reflexivity |].
    cbn [vars]. rewrite !lookup_insert_ne by discriminate. apply lookup_empty.
  - intros [c Hsrc] Hdst. eexists. split.
    { erewrite run_cons_ok; cycle 1.
      { apply assign_ok. unfold get_frame, lookup_var. cbn [vars].
        rewrite lookup_insert_eq. simpl. unfold getcol. rewrite Hsrc. reflexivity. }
      cbn [vars out].
      apply run_cons_raise, assign_raises.
      unfold get_frame, lookup_var. cbn [vars].
      rewrite lookup_insert_ne by discriminate. rewrite lookup_insert_eq. simpl.
      unfold getcol. rewrite Hdst. reflexivity. }
    split; [reflexivity |].
    cbn [vars]. rewrite !lookup_insert_ne by discriminate. apply lookup_empty.
Qed.

Lemma notebook1_missing_edge_column_witness :
  ∃ st : state Z,
    run (notebook1 (λ _, Ok (nodes_csv [30]))) initial_state
    = (st, Some (KeyError "Src"))
    ∧ vars st !! "g" = None.
Proof.
  destruct (notebook1_missing_edge_column (F:=Z) (λ _, Ok (nodes_csv [30]))
              (nodes_csv [30]) (nodes_csv [30]) eq_refl eq_refl) as [Hsrc _].
  destruct Hsrc as (st & Hrun & _ & Hg); [vm_compute; reflexivity |].
  exists st. split; assumption.
Defined.

(** ** A perfect and a null accuracy *)

Section AccuracyExtremes.
Context {F : Type} `{!FloatOps F} `{!Kernels (F:=F)}.

Lemma filter_length_all {A} (P : A → Prop) `{!∀ x, Decision (P x)} (l : list A) :
  length (filter P l) = length l ↔ Forall P l.
Proof.
  induction l as [|x l IH]; [split; [constructor | reflexivity] |].
  rewrite filter_cons. pose proof (length_filter P l) as Hle.
  case_decide as HP; simpl.
  - rewrite Forall_cons. split.
    + intros [= Hlen]. split; [exact HP | apply IH, Hlen].
    + intros [_ Hall]. f_equal. apply IH, Hall.
  - split; [lia |]. intros Hall. apply Forall_cons in Hall as [? _]. contradiction.
Qed.

Lemma filter_length_none {A} (P : A → Prop) `{!∀ x, Decision (P x)} (l : list A) :
  length (filter P l) = 0%nat ↔ Forall (λ x, ¬ P x) l.
Proof.
  induction l as [|x l IH]; [split; [constructor | reflexivity] |].
  rewrite filter_cons. case_decide as HP; simpl.
  - split; [discriminate |]. intros Hall. apply Forall_cons in Hall as [? _].
    contradiction.
  - rewrite Forall_cons, IH. tauto.
Qed.

(** X15: the accuracy is exactly 1 when the predicted classes are the labels,
    and exactly 0 when no node is predicted as its label. *)
Theorem accuracy_extremes (lg : list (list F)) (lv : list Z) :
  lg ≠ [] → length lv = length lg → Forall (λ row, row ≠ []) lg →
  ∃ pred acc,
    argmax_axis1 fgtb lg = Ok pred
    ∧ accuracy lg (LongVec lv) = Ok acc
    ∧ ((acc == 1)%Q ↔ pred = lv)
    ∧ ((acc == 0)%Q ↔ ∀ i p l, pred !! i = Some p → lv !! i = Some l → p ≠ l).
Proof.
  intros Hne Hlen Hrows.
  destruct (accuracy_fraction lg lv Hne Hlen Hrows)
    as (pred & acc & Hpred & Hplen & Hacc & -> & _ & _).
  exists pred. eexists. split; [exact Hpred |]. split; [exact Hacc |].
  assert (Hpos : ∃ n, length lg = S n).
  { destruct lg; [congruence | simpl; eauto]. }
  destruct Hpos as [n Hn]. rewrite Hn. unfold Qeq. simpl.
  pose proof (correct_nodes_le pred lv) as Hle.
  unfold correct_nodes in *. split; split.
  - intros Hall.
    assert (Hfull : length (filter (λ i, pred !! i = lv !! i) (seq 0 (length pred)))
                    = length (seq 0 (length pred))) by (rewrite length_seq; lia).
    apply filter_length_all in Hfull. rewrite Forall_forall in Hfull.
    apply list_eq. intros i. destruct (decide (i < length pred)%nat) as [Hi | Hi].
    + apply Hfull, elem_of_seq. lia.
    + rewrite !lookup_ge_None_2 by lia. reflexivity.
  - intros ->.
    assert (Hfull : length (filter (λ i, lv !! i = lv !! i) (seq 0 (length lv)))
                    = length (seq 0 (length lv))).
    { apply filter_length_all, Forall_forall. reflexivity. }
    rewrite length_seq in Hfull. lia.
  - intros Hzero i p l Hp Hl ->.
    assert (Hnone : length (filter (λ i, pred !! i = lv !! i) (seq 0 (length pred)))
                    = 0%nat) by lia.
    apply filter_length_none in Hnone. rewrite Forall_forall in Hnone.
    apply (Hnone i); [| congruence].
    apply elem_of_seq. apply lookup_lt_Some in Hp. lia.
  - intros Hdiff.
    assert (Hnone : length (filter (λ i, pred !! i = lv !! i) (seq 0 (length pred)))
                    = 0%nat).
    { apply filter_length_none, Forall_forall. intros i Hi Heq.
      apply elem_of_seq in Hi.
      destruct (lookup_lt_is_Some_2 pred i) as [p Hp]; [lia |].
      destruct (lookup_lt_is_Some_2 lv i) as [l Hl]; [lia |].
      apply (Hdiff i p l Hp Hl). congruence. }
    lia.
Qed.

End AccuracyExtremes.

Lemma accuracy_extremes_witness :
  ∃ (pred : list Z) (acc : Q),
    accuracy (F:=Z) [[1; 5]; [7; 2]] (LongVec [1; 0]) = Ok acc
    ∧ ((acc == 1)%Q ↔ pred = [1; 0]).
Proof.
  destruct (accuracy_extremes (F:=Z) [[1; 5]; [7; 2]] [1; 0])
    as (pred & acc & _ & Hacc & Hone & _).
  - discriminate.
  - reflexivity.
  - repeat constructor; discriminate.
  - exists pred, acc. split; assumption.
Defined.
